(** * MLlab, [bin/create_data.py]: synthetic data sets for classification
    and regression

    The script seeds Python's [random] module once, then for the train and
    the test split prints an example sample, opens the split's file, writes
    a header and 1000 rows, each sample pulled from a freshly created
    generator.  The older script [src/test/resources/create_data.py], which
    writes a diagonal classification set and a regression grid, comes last
    ([Legacy]).

    The development has four layers:
    - [float]: the values of Python floats (binary64) and their arithmetic;
    - [RandomSource]: the contract of the [random] module, with the Mersenne
      Twister of CPython as an instance;
    - the two generators [generate_clf_point] and [generate_reg_point], as
      resumable objects with a program counter and local variables;
    - the driver, a state-and-exception monad over the random source, the
      file system and the standard output. *)

From Stdlib Require Import ZArith QArith Qround Qabs Qpower Lia Lqa Bool.
From stdpp Require Import base strings gmap list.

Local Open Scope Z_scope.

(** ** Python floats

    A finite binary64 number is the rational it denotes.  The operations
    of IEEE 754 (sum, difference, product, quotient, square root) compute
    the exact result and round it to the nearest number with a 53-bit
    significand, ties to even ([RN]).  The exponent range is
    left unbounded and the two zeros are not told apart: all the numbers the
    generators handle lie between 2^-110 and 2^6 in magnitude or are zero,
    far from overflow and underflow, and the sign of a zero only shows when
    it is printed.  Floats are kept in lowest terms ([Qred]), so that two
    floats are the same number exactly when they are equal terms. *)

Definition float := Q.
Bind Scope Q_scope with float.

Definition pow2 (e : Z) : Q := (2 ^ e)%Q.

(** [ilog2 x] is the integer [t] with [2^t <= x < 2^(t+1)], for [0 < x]. *)
Definition ilog2 (x : Q) : Z :=
  let t := Z.log2 (Qnum x) - Z.log2 (Z.pos (Qden x)) in
  if Qle_bool (pow2 t) x then t else t - 1.

(** Rounding to the nearest integer, halves to the even neighbour. *)
Definition round_half_even (x : Q) : Z :=
  let f := Qfloor x in
  match (x - inject_Z f ?= 1 # 2)%Q with
  | Lt => f
  | Gt => f + 1
  | Eq => if Z.even f then f else f + 1
  end.

(** Rounding of a rational to binary64: the significand [x / 2^e] is
    scaled into [2^52, 2^53) and rounded to an integer. *)
Definition RN (x : Q) : float :=
  let x := Qred x in
  if Qnum x =? 0 then 0%Q
  else
    let e := ilog2 (Qabs x) - 52 in
    Qred (inject_Z (round_half_even (x / pow2 e)) * pow2 e).

Definition Z2F (z : Z) : float := RN (inject_Z z).

Definition fneg (a : float) : float := Qred (- a).
Definition fadd (a b : float) : float := RN (a + b).
Definition fsub (a b : float) : float := RN (a - b).
Definition fmul (a b : float) : float := RN (a * b).
Definition fdiv (a b : float) : float := RN (a / b).

(** [x ** y] is not one of these operations: CPython's [float_pow] hands
    both operands to the C library's [pow], and that function is not
    correctly rounded.  It is left open here.  What is asked of it is the
    accuracy the C libraries document for it, an error of at most one
    unit in the last place of the exact power, at the two exponents the
    script uses. *)
Class FloatPow := {
  float_pow : float -> float -> float;
  float_pow_accurate (x y : float) (n : Z) :
    n = 2 \/ n = 3 -> (y == inject_Z n)%Q ->
    (Qabs (float_pow x y - x ^ n) <= pow2 (-52) * Qabs (x ^ n))%Q
}.

(** [x ** n] for an [int] literal [n], which [float_pow] converts to a
    float first. *)
Definition fpow `{FloatPow} (a : float) (n : Z) : float := float_pow a (Z2F n).

(** [sqrt], correctly rounded: with [y = x / 4^e] in [2^104, 2^106), the
    integer square root [m] of [floor y] is the floor of [sqrt y], and
    [sqrt y] is compared with [m + 1/2] through the squares. *)
Definition fsqrt (x : float) : float :=
  if Qle_bool x 0 then 0%Q
  else
    let e := ilog2 x / 2 - 52 in
    let y := (x / pow2 (2 * e))%Q in
    let m := Z.sqrt (Qfloor y) in
    let r :=
      match (y ?= inject_Z (m * m + m) + (1 # 4))%Q with
      | Lt => m
      | Gt => m + 1
      | Eq => if Z.even m then m else m + 1
      end in
    Qred (inject_Z r * pow2 e).

Definition fltb (a b : float) : bool := negb (Qle_bool b a).
Definition fleb (a b : float) : bool := Qle_bool a b.

(** The float a decimal literal of the source denotes. *)
Definition lit (q : Q) : float := RN q.

(** Python's [round(x, ndigits)] on a float: the decimal expansion of [x]
    is rounded to [ndigits] places, halves to even, and the decimal that
    results is read back as a float. *)
Definition round_float (x : float) (ndigits : Z) : float :=
  RN (inject_Z (round_half_even (x * 10 ^ ndigits)) / 10 ^ ndigits).

(** *** Facts about rounding *)

Section FloatFacts.
Local Open Scope Q_scope.

Lemma pow2_pos e : 0 < pow2 e.
Proof. apply Qpower_0_lt. reflexivity. Qed.

Lemma pow2_add a b : pow2 (a + b) == pow2 a * pow2 b.
Proof. apply Qpower_plus. discriminate. Qed.

Lemma pow2_succ a : pow2 (a + 1) == 2 * pow2 a.
Proof. rewrite pow2_add. unfold pow2 at 2. rewrite Qpower_1_r. ring. Qed.

Lemma pow2_inject (a : Z) : (0 <= a)%Z -> pow2 a == inject_Z (2 ^ a).
Proof. intros H. unfold pow2. rewrite Zpower_Qpower by assumption. reflexivity. Qed.

Lemma pow2_sub a b : pow2 (a - b) == pow2 a / pow2 b.
Proof. apply Qpower_minus. discriminate. Qed.

Lemma pow2_le a b : (a <= b)%Z -> pow2 a <= pow2 b.
Proof. intros H. apply Qpower_le_compat_l; [exact H | discriminate]. Qed.

Lemma pow2_lt a b : (a < b)%Z -> pow2 a < pow2 b.
Proof. intros H. apply Qpower_lt_compat_l; [exact H | reflexivity]. Qed.

Lemma pow2_lt_inv a b : pow2 a < pow2 b -> (a < b)%Z.
Proof. intros H. apply (Qpower_lt_compat_l_inv 2); [exact H | reflexivity]. Qed.

Lemma ratio_between (N D A B : Q) :
  0 < D -> 0 < B -> A <= N -> N < 2 * A -> B <= D -> D < 2 * B ->
  A / B / 2 <= N / D /\ N / D < 2 * (A / B).
Proof.
  intros HD HB H1 H2 H3 H4. split.
  - apply Qle_shift_div_l; [exact HD|].
    assert (EQ : A / B / 2 * D == A * D / (2 * B)) by (field; lra); rewrite EQ; clear EQ.
    apply Qle_shift_div_r; [lra|]. nra.
  - apply Qlt_shift_div_r; [exact HD|].
    assert (EQ : 2 * (A / B) * D == 2 * A * D / B) by (field; lra); rewrite EQ; clear EQ.
    apply Qlt_shift_div_l; [exact HB|]. nra.
Qed.

Lemma log2_bounds (n : Z) :
  (0 < n)%Z -> pow2 (Z.log2 n) <= inject_Z n /\ inject_Z n < 2 * pow2 (Z.log2 n).
Proof.
  intros Hn. destruct (Z.log2_spec n Hn) as [H1 H2].
  assert (H0 := Z.log2_nonneg n). split.
  - rewrite pow2_inject by assumption. rewrite <- Zle_Qle. exact H1.
  - rewrite <- pow2_succ. rewrite pow2_inject by lia. rewrite <- Zlt_Qlt.
    replace (Z.log2 n + 1)%Z with (Z.succ (Z.log2 n)) by lia. exact H2.
Qed.

Lemma ilog2_spec x : 0 < x -> pow2 (ilog2 x) <= x /\ x < pow2 (ilog2 x + 1).
Proof.
  intros Hx. unfold ilog2.
  destruct x as [n d]. cbn [Qnum Qden].
  assert (Hn : (0 < n)%Z) by (unfold Qlt in Hx; cbn in Hx; lia).
  destruct (log2_bounds n Hn) as [Ha1 Ha2].
  destruct (log2_bounds (Z.pos d) eq_refl) as [Hb1 Hb2].
  set (a := Z.log2 n) in *. set (b := Z.log2 (Z.pos d)) in *.
  assert (HD : 0 < inject_Z (Z.pos d)) by (rewrite <- (Zlt_Qlt 0); lia).
  destruct (ratio_between _ _ _ _ HD (pow2_pos b) Ha1 Ha2 Hb1 Hb2) as [L U].
  rewrite <- (Qmake_Qdiv n d), <- pow2_sub in L, U.
  destruct (Qle_bool (pow2 (a - b)) (n # d)) eqn:E.
  - apply Qle_bool_iff in E. split; [exact E|]. rewrite pow2_succ. exact U.
  - assert (E' : n # d < pow2 (a - b)).
    { apply Qnot_le_lt. intros C. apply Qle_bool_iff in C. congruence. }
    replace (a - b - 1 + 1)%Z with (a - b)%Z by lia. split; [|exact E'].
    assert (P := pow2_succ (a - b - 1)).
    replace (a - b - 1 + 1)%Z with (a - b)%Z in P by lia.
    rewrite P in L. 
    assert (EQ : 2 * pow2 (a - b - 1) / 2 == pow2 (a - b - 1)) by field; rewrite EQ in L; clear EQ.
    exact L.
Qed.

Lemma ilog2_unique x t : pow2 t <= x -> x < pow2 (t + 1) -> ilog2 x = t.
Proof.
  intros H1 H2.
  assert (Hx : 0 < x) by (eapply Qlt_le_trans; [apply (pow2_pos t)| exact H1]).
  destruct (ilog2_spec x Hx) as [L U].
  assert (ilog2 x < t + 1)%Z by (apply pow2_lt_inv; eapply Qle_lt_trans; eassumption).
  assert (t < ilog2 x + 1)%Z by (apply pow2_lt_inv; eapply Qle_lt_trans; eassumption).
  lia.
Qed.

Lemma round_half_even_proper x y : x == y -> round_half_even x = round_half_even y.
Proof.
  intros E. unfold round_half_even.
  rewrite (Qfloor_comp _ _ E).
  assert (E2 : x - inject_Z (Qfloor y) == y - inject_Z (Qfloor y)) by (rewrite E; reflexivity).
  rewrite (Qcompare_comp _ _ E2 (1#2) (1#2) (Qeq_refl _)). reflexivity. 
Qed.

Lemma round_half_even_Z (z : Z) : round_half_even (inject_Z z) = z.
Proof.
  unfold round_half_even. rewrite Qfloor_Z.
  assert (E : inject_Z z - inject_Z z == 0) by ring.
  rewrite (Qcompare_comp _ _ E (1#2) (1#2) (Qeq_refl _)). reflexivity.
Qed.

Lemma round_half_even_lower (lo : Z) x : inject_Z lo <= x -> (lo <= round_half_even x)%Z.
Proof.
  intros H. unfold round_half_even.
  assert (lo <= Qfloor x)%Z by (rewrite <- (Qfloor_Z lo); apply Qfloor_resp_le; exact H).
  destruct (_ ?= _); [destruct (Z.even _)| |]; lia.
Qed.

Lemma round_half_even_upper (hi : Z) x : x <= inject_Z hi -> (round_half_even x <= hi)%Z.
Proof.
  intros H. unfold round_half_even.
  assert (F1 : (Qfloor x <= hi)%Z) by (rewrite <- (Qfloor_Z hi); apply Qfloor_resp_le; exact H).
  destruct (Z.eq_dec (Qfloor x) hi) as [E|NE].
  - assert (Hc : (x - inject_Z (Qfloor x) ?= 1 # 2) = Lt).
    { rewrite <- Qlt_alt. rewrite E. lra. }
    rewrite Hc. lia.
  - destruct (_ ?= _); [destruct (Z.even _)| |]; lia.
Qed.

Lemma RN_proper x y : x == y -> RN x = RN y.
Proof. intros E. unfold RN. rewrite (Qred_complete _ _ E). reflexivity. Qed.

Lemma Qred_zero x : x == 0 -> Qred x = 0.
Proof. intros E. apply (Qred_complete x 0 E). Qed.

Lemma Qnum_zero x : Qnum x = 0%Z -> x == 0.
Proof. destruct x as [n d]. cbn. intros ->. reflexivity. Qed.

Lemma Qabs_inject_mul m x : 0 <= x -> Qabs (inject_Z m * x) == inject_Z (Z.abs m) * x.
Proof.
  intros H. rewrite Qabs_Qmult. rewrite (Qabs_pos x H).
  unfold Qabs, inject_Z. cbn. reflexivity.
Qed.

(** A number with an integer significand below 2^53 is a float: rounding
    leaves it alone. *)
Lemma RN_exact (m j : Z) x :
  (Z.abs m < 2 ^ 53)%Z -> x == inject_Z m * pow2 j -> RN x = Qred x.
Proof.
  intros Hm Ex. unfold RN.
  assert (Er : Qred x == x) by apply Qred_correct.
  destruct (Z.eqb_spec (Qnum (Qred x)) 0) as [E0|N0].
  - symmetry. apply Qred_zero. rewrite <- Er. apply Qnum_zero, E0.
  - apply Qred_complete.
    set (e := (ilog2 (Qabs (Qred x)) - 52)%Z).
    assert (Hj := pow2_pos j). assert (He := pow2_pos e).
    assert (Hm0 : m <> 0%Z).
    { intros ->. apply N0. rewrite (Qred_zero x); [reflexivity|]. rewrite Ex. ring. }
    assert (Habs : Qabs (Qred x) == inject_Z (Z.abs m) * pow2 j).
    { rewrite Er, Ex. apply Qabs_inject_mul. lra. }
    assert (Hpos : 0 < Qabs (Qred x)).
    { rewrite Habs. apply Qmult_lt_0_compat; [|exact Hj]. rewrite <- (Zlt_Qlt 0). lia. }
    destruct (ilog2_spec _ Hpos) as [L _].
    assert (Hej : (e <= j)%Z).
    { enough (e + 52 < j + 53)%Z by lia. apply pow2_lt_inv.
      replace (e + 52)%Z with (ilog2 (Qabs (Qred x))) by (unfold e; lia).
      eapply Qle_lt_trans; [exact L|]. rewrite Habs.
      rewrite (Z.add_comm j 53), pow2_add.
      apply Qmult_lt_compat_r; [exact Hj|].
      rewrite pow2_inject by lia. rewrite <- Zlt_Qlt. exact Hm. }
    assert (Hq : Qred x / pow2 e == inject_Z (m * 2 ^ (j - e))).
    { rewrite Er, Ex. rewrite inject_Z_mult, <- pow2_inject by lia.
      rewrite pow2_sub. field. lra. }
    rewrite (round_half_even_proper _ _ Hq), round_half_even_Z.
    rewrite Ex, inject_Z_mult, <- pow2_inject by lia. rewrite pow2_sub. field. lra.
Qed.

Lemma RN_exact_eq (m j : Z) x :
  (Z.abs m < 2 ^ 53)%Z -> x == inject_Z m * pow2 j -> RN x == x.
Proof. intros Hm Ex. rewrite (RN_exact m j x Hm Ex). apply Qred_correct. Qed.

Lemma RN_nonneg x : 0 <= x -> 0 <= RN x.
Proof.
  intros Hx. unfold RN.
  assert (Er : Qred x == x) by apply Qred_correct.
  set (x' := Qred x) in *. clearbody x'. destruct (_ =? _)%Z; [lra|].
  set (e := (ilog2 _ - 52)%Z). assert (He := pow2_pos e).
  rewrite (Qred_correct (_ * _)).
  apply Qmult_le_0_compat; [|lra].
  rewrite <- (Zle_Qle 0). apply round_half_even_lower.
  apply Qle_shift_div_l; [exact He|]. change (inject_Z 0) with 0. lra.
Qed.

Lemma RN_nonpos x : x <= 0 -> RN x <= 0.
Proof.
  intros Hx. unfold RN.
  assert (Er : Qred x == x) by apply Qred_correct.
  set (x' := Qred x) in *. clearbody x'. destruct (_ =? _)%Z; [lra|].
  set (e := (ilog2 _ - 52)%Z). assert (He := pow2_pos e).
  rewrite (Qred_correct (_ * _)).
  assert (H : inject_Z (round_half_even (x' / pow2 e)) <= 0).
  { rewrite <- (Zle_Qle _ 0). apply round_half_even_upper.
    apply Qle_shift_div_r; [exact He|]. change (inject_Z 0) with 0. lra. }
  nra.
Qed.

End FloatFacts.

(** ** The [random] module

    The script draws from the module-level generator of Python's [random]
    through [seed], [random], [randint] and [gauss].  [RandomSource] is
    that interface with the part of its documented contract the generators
    rely on: [random()] is one of the 2^53 floats [k / 2^53] of [0, 1), and
    [randint(a, b)] lies between [a] and [b]. *)

Definition dyadic (m j : Z) : float := Qred (inject_Z m * pow2 j).

Class RandomSource := {
  rng : Type;
  random_seed : Z -> rng;
  random_random : rng -> float * rng;
  random_randint : Z -> Z -> rng -> Z * rng;
  random_gauss : float -> float -> rng -> float * rng;
  random_random_unit :
    forall s, exists k, 0 <= k < 2 ^ 53 /\ (random_random s).1 = dyadic k (-53);
  random_randint_range :
    forall a b s, a <= b -> a <= (random_randint a b s).1 <= b
}.

(** *** CPython's generator: MT19937

    [_randommodule.c] keeps 624 words of 32 bits and an index.  Words are
    integers; [u32] is the truncation that [uint32_t] arithmetic performs. *)

Module MT.

Definition N : nat := 624.
Definition M : nat := 397.
Definition MATRIX_A : Z := 0x9908b0df.
Definition UPPER_MASK : Z := 0x80000000.
Definition LOWER_MASK : Z := 0x7fffffff.

Definition u32 (z : Z) : Z := Z.land z 0xffffffff.

Record state := { mt : list Z; index : nat }.

Definition mag01 (y : Z) : Z := if Z.testbit y 0 then MATRIX_A else 0.

(** [mt[kk] = mt[km] ^ (y >> 1) ^ mag01[y & 1]] with
    [y = (mt[kk] & UPPER_MASK) | (mt[k1] & LOWER_MASK)]. *)
Definition twist_at (mt : list Z) (kk k1 km : nat) : list Z :=
  let y := Z.lor (Z.land (mt !!! kk) UPPER_MASK) (Z.land (mt !!! k1) LOWER_MASK) in
  <[kk := Z.lxor (Z.lxor (mt !!! km) (Z.shiftr y 1)) (mag01 y)]> mt.

(** The three loops that regenerate the words, updating in place. *)
Definition twist (mt : list Z) : list Z :=
  let mt := fold_left (fun mt kk => twist_at mt kk (kk + 1) (kk + M))
                      (seq 0 (N - M)) mt in
  let mt := fold_left (fun mt kk => twist_at mt kk (kk + 1) (kk + M - N))
                      (seq (N - M) (M - 1)) mt in
  twist_at mt (N - 1) 0 (M - 1).

Definition genrand_uint32 (s : state) : Z * state :=
  let s := if (N <=? index s)%nat then {| mt := twist (mt s); index := 0 |} else s in
  let y := mt s !!! index s in
  let y := Z.lxor y (Z.shiftr y 11) in
  let y := Z.lxor y (Z.land (Z.shiftl y 7) 0x9d2c5680) in
  let y := Z.lxor y (Z.land (Z.shiftl y 15) 0xefc60000) in
  let y := Z.lxor y (Z.shiftr y 18) in
  (u32 y, {| mt := mt s; index := S (index s) |}).

Fixpoint init_genrand_loop (n : nat) (mti : nat) (mt : list Z) : list Z :=
  match n with
  | O => mt
  | S n =>
      let p := mt !!! (mti - 1)%nat in
      let v := u32 (1812433253 * Z.lxor p (Z.shiftr p 30) + Z.of_nat mti) in
      init_genrand_loop n (S mti) (<[mti := v]> mt)
  end.

Definition init_genrand (s : Z) : state :=
  let mt := <[0%nat := u32 s]> (replicate N 0) in
  {| mt := init_genrand_loop (N - 1) 1 mt; index := N |}.

(** [if (i >= N) { mt[0] = mt[N-1]; i = 1; }] *)
Definition wrap_index (mt : list Z) (i : nat) : list Z * nat :=
  if (N <=? i)%nat then (<[0%nat := mt !!! (N - 1)%nat]> mt, 1%nat) else (mt, i).

Fixpoint init_by_array_mix (k : nat) (init_key : list Z) (mt : list Z) (i j : nat)
  : list Z * nat :=
  match k with
  | O => (mt, i)
  | S k =>
      let p := mt !!! (i - 1)%nat in
      let v := u32 (Z.lxor (mt !!! i) (Z.lxor p (Z.shiftr p 30) * 1664525)
                    + init_key !!! j + Z.of_nat j) in
      let '(mt, i) := wrap_index (<[i := v]> mt) (S i) in
      let j := if (length init_key <=? S j)%nat then 0%nat else S j in
      init_by_array_mix k init_key mt i j
  end.

Fixpoint init_by_array_finish (k : nat) (mt : list Z) (i : nat) : list Z :=
  match k with
  | O => mt
  | S k =>
      let p := mt !!! (i - 1)%nat in
      let v := u32 (Z.lxor (mt !!! i) (Z.lxor p (Z.shiftr p 30) * 1566083941)
                    - Z.of_nat i) in
      let '(mt, i) := wrap_index (<[i := v]> mt) (S i) in
      init_by_array_finish k mt i
  end.

Definition init_by_array (init_key : list Z) : state :=
  let s := init_genrand 19650218 in
  let k := Nat.max N (length init_key) in
  let '(mt, i) := init_by_array_mix k init_key (mt s) 1 0 in
  let mt := init_by_array_finish (N - 1) mt i in
  {| mt := <[0%nat := 0x80000000]> mt; index := index s |}.

(** The key [random_seed] builds from an integer: the 32-bit digits of its
    absolute value, least significant first, at least one. *)
Fixpoint key_digits (fuel : nat) (n : Z) : list Z :=
  match fuel with
  | O => []
  | S fuel =>
      if n <? 2 ^ 32 then [n] else u32 n :: key_digits fuel (Z.shiftr n 32)
  end.

Definition seed_key (a : Z) : list Z :=
  let n := Z.abs a in key_digits (S (Z.to_nat (Z.log2 n))) n.

(** [random_random]: two words make the 53 bits of the significand. *)
Definition random (s : state) : float * state :=
  let '(y1, s) := genrand_uint32 s in
  let '(y2, s) := genrand_uint32 s in
  let a := Z.shiftr y1 5 in
  let b := Z.shiftr y2 6 in
  (fmul (fadd (fmul (Z2F a) 67108864) (Z2F b)) (fdiv 1 9007199254740992), s).

(** [getrandbits(k)] for [0 < k]: whole words, least significant first, the
    last one shifted down to the bits that are left. *)
Fixpoint getrandbits_words (words : nat) (k : Z) (s : state) : Z * state :=
  match words with
  | O => (0, s)
  | S words =>
      let '(r, s) := genrand_uint32 s in
      let r := if k <? 32 then Z.shiftr r (32 - k) else r in
      let '(hi, s) := getrandbits_words words (k - 32) s in
      (r + Z.shiftl hi 32, s)
  end.

Definition getrandbits (k : Z) (s : state) : Z * state :=
  getrandbits_words (Z.to_nat ((k - 1) / 32 + 1)) k s.

End MT.

(** *** The [Random] object of [random.py] over MT19937

    [cos], [sin] and [log] of the C library are not computed here:
    [gauss] takes them from a [Libm].

    [_randbelow] repeats [getrandbits] until the draw is below [n], with no
    bound on the number of draws.  Here it gives up after [retry_bound]
    draws and records that in [cut]; [randint] on an empty range, which
    raises in Python, is recorded in the same way.  A run that ends with
    [cut = false] is a run of the Python code. *)

Record Libm := {
  libm_cos : float -> float;
  libm_sin : float -> float;
  libm_log : float -> float
}.

Module PyRandom.

Record t := { gen : MT.state; gauss_next : option float; cut : bool }.

Definition retry_bound : nat := 256.

Definition TWOPI : float := fmul 2 (lit 3.141592653589793).

Definition seed (a : Z) : t :=
  {| gen := MT.init_by_array (MT.seed_key a); gauss_next := None; cut := false |}.

Definition random (s : t) : float * t :=
  let '(r, g) := MT.random (gen s) in
  (r, {| gen := g; gauss_next := gauss_next s; cut := cut s |}).

Definition bit_length (n : Z) : Z := if n =? 0 then 0 else Z.log2 (Z.abs n) + 1.

Fixpoint randbelow_loop (fuel : nat) (n k : Z) (g : MT.state) : option (Z * MT.state) :=
  match fuel with
  | O => None
  | S fuel =>
      let '(r, g) := MT.getrandbits k g in
      if r <? n then Some (r, g) else randbelow_loop fuel n k g
  end.

Definition randbelow (n : Z) (g : MT.state) : option (Z * MT.state) :=
  randbelow_loop retry_bound n (bit_length n) g.

(** [randint(a, b)] is [randrange(a, b + 1)], that is [a + _randbelow(b + 1 - a)]. *)
Definition randint (a b : Z) (s : t) : Z * t :=
  let width := b + 1 - a in
  match (if 0 <? width then randbelow width (gen s) else None) with
  | Some (r, g) => (a + r, {| gen := g; gauss_next := gauss_next s; cut := cut s |})
  | None => (a, {| gen := gen s; gauss_next := gauss_next s; cut := true |})
  end.

(** [gauss]: one pair of uniform draws gives two normal deviates; the
    second is kept in [gauss_next] for the following call. *)
Definition gauss (libm : Libm) (mu sigma : float) (s : t) : float * t :=
  match gauss_next s with
  | Some z =>
      (fadd mu (fmul z sigma), {| gen := gen s; gauss_next := None; cut := cut s |})
  | None =>
      let '(r1, s) := random s in
      let x2pi := fmul r1 TWOPI in
      let '(r2, s) := random s in
      let g2rad := fsqrt (fmul (-2) (libm_log libm (fsub 1 r2))) in
      let z := fmul (libm_cos libm x2pi) g2rad in
      (fadd mu (fmul z sigma),
       {| gen := gen s; gauss_next := Some (fmul (libm_sin libm x2pi) g2rad);
          cut := cut s |})
  end.

End PyRandom.

(** *** The Mersenne Twister meets the contract *)

Lemma u32_range z : 0 <= MT.u32 z < 2 ^ 32.
Proof.
  unfold MT.u32. change 0xffffffff with (Z.ones 32).
  rewrite Z.land_ones by lia. apply Z.mod_pos_bound. lia.
Qed.

Lemma genrand_uint32_range s : 0 <= (MT.genrand_uint32 s).1 < 2 ^ 32.
Proof. unfold MT.genrand_uint32. cbn [fst]. apply u32_range. Qed.

Lemma dyadic_eq m j : (dyadic m j == inject_Z m * pow2 j)%Q.
Proof. apply Qred_correct. Qed.

Lemma RN_dyadic (m j : Z) x :
  Z.abs m < 2 ^ 53 -> (x == inject_Z m * pow2 j)%Q -> RN x = dyadic m j.
Proof.
  intros Hm Ex. rewrite (RN_exact m j x Hm Ex). apply Qred_complete, Ex.
Qed.

Lemma shiftr_range y n k :
  0 <= y < 2 ^ n -> 0 <= k <= n -> 0 <= Z.shiftr y k < 2 ^ (n - k).
Proof.
  intros Hy Hk. rewrite Z.shiftr_div_pow2 by lia. split.
  - apply Z.div_pos; lia.
  - apply Z.div_lt_upper_bound; [lia|]. rewrite <- Z.pow_add_r by lia.
    replace (k + (n - k)) with n by lia. lia.
Qed.

Lemma MT_random_unit s :
  exists k, 0 <= k < 2 ^ 53 /\ (MT.random s).1 = dyadic k (-53).
Proof.
  unfold MT.random.
  destruct (MT.genrand_uint32 s) as [y1 s1] eqn:E1.
  destruct (MT.genrand_uint32 s1) as [y2 s2] eqn:E2. cbn [fst].
  assert (H1 := genrand_uint32_range s). rewrite E1 in H1. cbn [fst] in H1.
  assert (H2 := genrand_uint32_range s1). rewrite E2 in H2. cbn [fst] in H2.
  assert (Ha := shiftr_range y1 32 5 H1 ltac:(lia)).
  assert (Hb := shiftr_range y2 32 6 H2 ltac:(lia)).
  set (a := Z.shiftr y1 5) in *. set (b := Z.shiftr y2 6) in *.
  change (2 ^ (32 - 5)) with 134217728 in Ha. change (2 ^ (32 - 6)) with 67108864 in Hb.
  exists (a * 67108864 + b). split; [lia|].
  unfold fmul, fadd, fdiv, Z2F.
  rewrite (RN_dyadic a 0 (inject_Z a)) by (try lia; unfold pow2; cbn; ring).
  rewrite (RN_dyadic (a * 67108864) 0 (dyadic a 0 * 67108864)); cycle 1.
  { lia. }
  { rewrite dyadic_eq, inject_Z_mult. unfold pow2. cbn. ring. }
  rewrite (RN_dyadic b 0 (inject_Z b)) by (try lia; unfold pow2; cbn; ring).
  rewrite (RN_dyadic (a * 67108864 + b) 0 (dyadic (a * 67108864) 0 + dyadic b 0)); cycle 1.
  { lia. }
  { rewrite !dyadic_eq, inject_Z_plus. unfold pow2. cbn. ring. }
  rewrite (RN_dyadic 1 (-53) (1 / 9007199254740992)); cycle 1.
  { lia. }
  { unfold pow2. cbn. reflexivity. }
  apply RN_dyadic; [lia|].
  rewrite !dyadic_eq. unfold pow2. cbn. ring.
Qed.

Lemma getrandbits_words_nonneg w k s : 0 <= (MT.getrandbits_words w k s).1.
Proof.
  revert k s. induction w as [|w IH]; intros k s; cbn [MT.getrandbits_words fst]; [lia|].
  destruct (MT.genrand_uint32 s) as [r s1] eqn:E.
  assert (Hr := genrand_uint32_range s). rewrite E in Hr. cbn [fst] in Hr.
  specialize (IH (k - 32) s1).
  destruct (MT.getrandbits_words w (k - 32) s1) as [hi s2]. cbn [fst] in *.
  assert (0 <= Z.shiftl hi 32) by (apply Z.shiftl_nonneg; lia).
  destruct (k <? 32); [|lia].
  assert (0 <= Z.shiftr r (32 - k)) by (apply Z.shiftr_nonneg; lia). lia.
Qed.

Lemma randbelow_loop_range fuel n k g r g' :
  PyRandom.randbelow_loop fuel n k g = Some (r, g') -> 0 <= r < n.
Proof.
  revert g. induction fuel as [|fuel IH]; intros g; cbn [PyRandom.randbelow_loop]; [discriminate|].
  destruct (MT.getrandbits k g) as [r0 g0] eqn:E.
  destruct (Z.ltb_spec r0 n) as [Hlt|Hge]; [|apply IH].
  intros [= <- <-]. split; [|exact Hlt].
  assert (H := getrandbits_words_nonneg (Z.to_nat ((k - 1) / 32 + 1)) k g).
  unfold MT.getrandbits in E. rewrite E in H. exact H.
Qed.

Lemma PyRandom_randint_range a b s : a <= b -> a <= (PyRandom.randint a b s).1 <= b.
Proof.
  intros Hab. unfold PyRandom.randint.
  destruct (0 <? b + 1 - a); [|cbn; lia].
  unfold PyRandom.randbelow.
  destruct (PyRandom.randbelow_loop _ _ _ _) as [[r g]|] eqn:E; cbn [fst]; [|lia].
  apply randbelow_loop_range in E. lia.
Qed.

Lemma PyRandom_random_unit s :
  exists k, 0 <= k < 2 ^ 53 /\ (PyRandom.random s).1 = dyadic k (-53).
Proof.
  unfold PyRandom.random. destruct (MT_random_unit (PyRandom.gen s)) as (k & Hk & E).
  destruct (MT.random (PyRandom.gen s)) as [r g]. exists k. split; [exact Hk|exact E].
Qed.

Definition mt19937 (libm : Libm) : RandomSource := {|
  rng := PyRandom.t;
  random_seed := PyRandom.seed;
  random_random := PyRandom.random;
  random_randint := PyRandom.randint;
  random_gauss := PyRandom.gauss libm;
  random_random_unit := PyRandom_random_unit;
  random_randint_range := PyRandom_randint_range
|}.

(** ** Python values, exceptions and effects *)

(** A feature is an [int] ([x = [0, 0]], the bits of [bernoulli]) or a
    [float]. *)
Inductive value :=
| Int (z : Z)
| Float (f : float).

Inductive exn :=
| NotImplementedError (msg : string)
| ValueError (msg : string)
| StopIteration.

(** A computation over a state [S] that returns or raises; the state
    survives an exception. *)
Definition SE (S A : Type) : Type := S -> (exn + A) * S.

#[export] Instance SE_ret {S} : MRet (SE S) := fun A a s => (inr a, s).

#[export] Instance SE_bind {S} : MBind (SE S) := fun A B k c s =>
  match c s with
  | (inl e, s') => (inl e, s')
  | (inr a, s') => k a s'
  end.

Definition raise {S A} (e : exn) : SE S A := fun s => (inl e, s).

(** [round(xs, ndigits)]: an [int] is returned as it is for
    [0 <= ndigits]. *)
Definition py_round (ndigits : Z) (v : value) : value :=
  match v with
  | Int z => Int z
  | Float f => Float (round_float f ndigits)
  end.

(** The number a value denotes, as [sum] and the comparisons see it. *)
Definition number (v : value) : Q :=
  match v with
  | Int z => inject_Z z
  | Float f => f
  end.

(** [math.sqrt] raises on a negative argument. *)
Definition math_sqrt {S} (x : float) : SE S float :=
  if fltb x 0 then raise (ValueError "math domain error") else mret (fsqrt x).

Section Generators.

Context {R : RandomSource} {P : FloatPow}.

Definition random : SE rng float :=
  fun s => let '(r, s') := random_random s in (inr r, s').

Definition randint (a b : Z) : SE rng Z :=
  fun s => let '(r, s') := random_randint a b s in (inr r, s').

Definition gauss (mu sigma : float) : SE rng float :=
  fun s => let '(r, s') := random_gauss mu sigma s in (inr r, s').

(** [2 * random.random() - 1] *)
Definition coordinate : SE rng float :=
  r ← random; mret (fsub (fmul 2 r) 1).

(** [[random.randint(0, 1) for _ in range(5)]] and the like. *)
Fixpoint randint_list (n : nat) (a b : Z) : SE rng (list Z) :=
  match n with
  | O => mret []
  | S n => v ← randint a b; vs ← randint_list n a b; mret (v :: vs)
  end.

Definition sum (x : list Z) : Z := foldr Z.add 0 x.

(** *** [generate_clf_point]

    The local variables that are live at the [yield]. *)
Record clf_locals := { label : Z; x : list value }.

(** One turn of [while True], from its first statement to the [yield]. *)
Definition clf_iteration (strategy : string) (_ : option clf_locals)
  : SE rng clf_locals :=
  let label := 0 in
  let x := [Int 0; Int 0] in
  '(x, label) ←
    (if String.eqb strategy "halfs" then
       label ← randint 0 1;
       x0 ← (if label =? 0 then r ← random; mret (fneg r) else random);
       x1 ← coordinate;
       mret ([Float x0; Float x1], label)
     else if String.eqb strategy "quarters" then
       x0 ← coordinate;
       x1 ← coordinate;
       mret ([Float x0; Float x1], if fltb 0 (fmul x0 x1) then 0 else 1)
     else if String.eqb strategy "diagonal" then
       x0 ← coordinate;
       x1 ← coordinate;
       mret ([Float x0; Float x1], if fltb 0 (fsub x0 x1) then 0 else 1)
     else if String.eqb strategy "shifteddiagonal" then
       x0 ← coordinate;
       x1 ← coordinate;
       mret ([Float x0; Float x1],
             if fltb 0 (fadd (fsub x0 x1) (lit 0.5)) then 0 else 1)
     else if String.eqb strategy "circle" then
       x0 ← coordinate;
       x1 ← coordinate;
       d ← math_sqrt (fadd (fpow x0 2) (fpow x1 2));
       mret ([Float x0; Float x1], if fltb d (lit 0.5) then 1 else 0)
     else if String.eqb strategy "ellipse" then
       x0 ← coordinate;
       x1 ← coordinate;
       let x0Center := fsub x0 (lit 0.2) in
       let x1Center := fadd x1 (lit 0.3) in
       let rx0 := lit 0.75 in
       let rx1 := lit 0.5 in
       d ← math_sqrt (fadd (fpow (fdiv x0Center rx0) 2) (fpow (fdiv x1Center rx1) 2));
       mret ([Float x0; Float x1], if fltb d 1 then 1 else 0)
     else if String.eqb strategy "circles" then
       x0 ← coordinate;
       x1 ← coordinate;
       let d := lit 0.5 in
       let r := lit 0.25 in
       c1 ← math_sqrt (fadd (fpow (fsub x0 d) 2) (fpow (fsub x1 d) 2));
       partOfCircle ←
         (if fltb c1 r then mret true else
          c2 ← math_sqrt (fadd (fpow (fadd x0 d) 2) (fpow (fadd x1 d) 2));
          if fltb c2 r then mret true else
          c3 ← math_sqrt (fadd (fpow (fsub x0 d) 2) (fpow (fadd x1 d) 2));
          if fltb c3 r then mret true else
          c4 ← math_sqrt (fadd (fpow (fadd x0 d) 2) (fpow (fsub x1 d) 2));
          mret (fltb c4 r));
       mret ([Float x0; Float x1], if partOfCircle : bool then 1 else 0)
     else if String.eqb strategy "bernoulli" then
       x ← randint_list 5 0 1;
       mret (Int <$> x, if 2 <? sum x then 1 else 0)
     else
       raise (NotImplementedError "this shape is not implemented for clf"));
  let x := py_round 2 <$> x in
  mret {| label := label; x := x |}.

(** *** Generator objects

    Calling a generator function runs nothing: it returns an object that
    has not started.  [next] runs it to the next [yield], where it stays
    suspended with its local variables; an exception closes it. *)
Inductive gen_status := GEN_CREATED | GEN_SUSPENDED | GEN_CLOSED.

Record clf_generator := {
  clf_strategy : string;
  clf_status : gen_status;
  clf_frame : option clf_locals
}.

Definition generate_clf_point (strategy : string) : clf_generator :=
  {| clf_strategy := strategy; clf_status := GEN_CREATED; clf_frame := None |}.

Definition clf_sample : Type := list value * Z.

Definition clf_next (g : clf_generator) (s : rng)
  : (exn + clf_sample) * clf_generator * rng :=
  match clf_status g with
  | GEN_CLOSED => (inl StopIteration, g, s)
  | GEN_CREATED | GEN_SUSPENDED =>
      match clf_iteration (clf_strategy g) (clf_frame g) s with
      | (inl e, s') =>
          (inl e,
           {| clf_strategy := clf_strategy g; clf_status := GEN_CLOSED;
              clf_frame := None |}, s')
      | (inr l, s') =>
          (inr (x l, label l),
           {| clf_strategy := clf_strategy g; clf_status := GEN_SUSPENDED;
              clf_frame := Some l |}, s')
      end
  end.

(** *** [generate_reg_point] *)
Record reg_locals := { reg_x : list value; reg_y : value }.

Definition reg_iteration (strategy : string) (_ : option reg_locals)
  : SE rng reg_locals :=
  let x := Int 0 in
  let y := Int 0 in
  '(x, y) ←
    (if String.eqb strategy "linear" then
       x0 ← coordinate;
       mret ([x0], fsub (fmul 2 x0) 1)
     else if String.eqb strategy "twodimlinear" then
       x0 ← coordinate;
       x1 ← coordinate;
       mret ([x0; x1], fsub (fadd (fmul 2 x0) (fmul 1 x1)) 1)
     else if String.eqb strategy "multidimlinear" then
       x0 ← coordinate;
       x1 ← coordinate;
       x2 ← coordinate;
       x3 ← coordinate;
       mret ([x0; x1; x2; x3],
             fsub (fsub (fadd (fadd (fmul 2 x0) (fmul 1 x1)) (fmul 10 x2))
                        (fmul 5 x3)) 1)
     else if String.eqb strategy "quadratic" then
       x0 ← coordinate;
       mret ([x0], fsub (fadd (fmul 2 (fpow x0 2)) (fmul 1 x0)) 1)
     else if String.eqb strategy "twodimcubic" then
       x0 ← coordinate;
       x1 ← coordinate;
       mret ([x0; x1],
             fsub (fsub (fadd (fsub (fadd (fadd (fneg (fpow x0 3))
                                                (fmul 2 (fpow x1 3)))
                                          (fmul 2 (fpow x0 2)))
                                    (fmul 3 (fpow x1 2)))
                              (fmul 1 x0))
                        (fmul 2 x1)) 1)
     else if String.eqb strategy "twodimquadratic" then
       x0 ← coordinate;
       x1 ← coordinate;
       mret ([x0; x1],
             fsub (fsub (fadd (fadd (fsub (fmul 2 (fpow x0 2))
                                          (fmul 3 (fpow x1 2)))
                                    (fmul (fmul 4 x0) x1))
                              (fmul 1 x0))
                        (fmul 2 x1)) 1)
     else if String.eqb strategy "cubic" then
       x0 ← coordinate;
       mret ([x0],
             fsub (fadd (fadd (fmul (-2) (fpow x0 3)) (fmul 2 (fpow x0 2)))
                        (fmul 1 x0)) 1)
     else
       raise (NotImplementedError "this shape is not implemented for reg"));
  let mu := 0%Q in
  let sigma := lit 0.3 in
  noise ← gauss mu sigma;
  let y := fadd y noise in
  let x := py_round 3 <$> (Float <$> x) in
  let y := py_round 3 (Float y) in
  mret {| reg_x := x; reg_y := y |}.

Record reg_generator := {
  reg_strategy : string;
  reg_status : gen_status;
  reg_frame : option reg_locals
}.

Definition generate_reg_point (strategy : string) : reg_generator :=
  {| reg_strategy := strategy; reg_status := GEN_CREATED; reg_frame := None |}.

Definition reg_sample : Type := list value * value.

Definition reg_next (g : reg_generator) (s : rng)
  : (exn + reg_sample) * reg_generator * rng :=
  match reg_status g with
  | GEN_CLOSED => (inl StopIteration, g, s)
  | GEN_CREATED | GEN_SUSPENDED =>
      match reg_iteration (reg_strategy g) (reg_frame g) s with
      | (inl e, s') =>
          (inl e,
           {| reg_strategy := reg_strategy g; reg_status := GEN_CLOSED;
              reg_frame := None |}, s')
      | (inr l, s') =>
          (inr (reg_x l, reg_y l),
           {| reg_strategy := reg_strategy g; reg_status := GEN_SUSPENDED;
              reg_frame := Some l |}, s')
      end
  end.

End Generators.

(** ** The script

    What the script prints, on the standard output or into a file.  A data
    row keeps the values handed to [format]; their rendering by [str] is
    Python's and is not spelled out. *)
Inductive line :=
| Text (s : string)
| Example (x : list value) (y : value)
| Row (i : Z) (x : list value) (y : value).

(** [argparse] leaves [None] for an option that was not given. *)
Record args := { clf : option string; reg : option string }.

(** [os.path.join] of two components, as [posixpath] defines it. *)
Definition endswith (a suffix : string) : bool :=
  String.eqb (String.substring (String.length a - String.length suffix)
                               (String.length suffix) a) suffix
  && (String.length suffix <=? String.length a)%nat.

Definition os_path_join (a b : string) : string :=
  if String.prefix "/" b then b
  else if String.eqb a "" || endswith a "/" then a +:+ b
  else a +:+ "/" +:+ b.

(** [dirname] stands for [os.path.dirname(__file__)]. *)
Definition TARGET_DIR (dirname : string) : string := os_path_join dirname "../data".

Section Script.

Context {R : RandomSource} {P : FloatPow}.

(** The state the script acts on: the module-level random generator, the
    files by path, and the standard output.  A directory is taken to exist
    and to be writable, so that [open(filename, 'w')] succeeds. *)
Record world := {
  w_rng : rng;
  w_files : gmap string (list line);
  w_stdout : list line
}.

Definition seed (a : Z) : SE world unit := fun w =>
  (inr (), {| w_rng := random_seed a; w_files := w_files w; w_stdout := w_stdout w |}).

Definition print (l : line) : SE world unit := fun w =>
  (inr (), {| w_rng := w_rng w; w_files := w_files w; w_stdout := w_stdout w ++ [l] |}).

(** [open(filename, 'w')] creates the file or empties it. *)
Definition open_w (filename : string) : SE world unit := fun w =>
  (inr (), {| w_rng := w_rng w; w_files := <[filename := []]> (w_files w);
              w_stdout := w_stdout w |}).

(** [print(..., file=myfile)] *)
Definition print_to (filename : string) (l : line) : SE world unit := fun w =>
  (inr (), {| w_rng := w_rng w;
              w_files := alter (fun c => c ++ [l]) filename (w_files w);
              w_stdout := w_stdout w |}).

(** [next(generate_clf_point(strategy))]: a new generator object, pulled
    once and dropped. *)
Definition next_generate_clf_point (strategy : string) : SE world clf_sample :=
  fun w =>
    let '(r, _, s) := clf_next (generate_clf_point strategy) (w_rng w) in
    (r, {| w_rng := s; w_files := w_files w; w_stdout := w_stdout w |}).

Definition next_generate_reg_point (strategy : string) : SE world reg_sample :=
  fun w =>
    let '(r, _, s) := reg_next (generate_reg_point strategy) (w_rng w) in
    (r, {| w_rng := s; w_files := w_files w; w_stdout := w_stdout w |}).

Fixpoint for_each {A} (l : list A) (body : A -> SE world unit) : SE world unit :=
  match l with
  | [] => mret ()
  | a :: l => body a;; for_each l body
  end.

Definition nInstances : Z := 1000.

(** [range(n)] *)
Definition range (n : Z) : list Z := seqZ 0 n.

Definition clf_filename (dirname command : string) : string :=
  os_path_join (TARGET_DIR dirname) ("clf_" +:+ command +:+ ".csv").

Definition reg_filename (dirname command : string) : string :=
  os_path_join (TARGET_DIR dirname) ("reg_" +:+ command +:+ ".csv").

(** The body of [for command in ['train', 'test']], classification. *)
Definition clf_split (dirname strategy command : string) : SE world unit :=
  let filename := clf_filename dirname command in
  print (Text ("Creating data in " +:+ filename));;
  print (Text ("Shape: " +:+ strategy));;
  '(x, label) ← next_generate_clf_point strategy;
  print (Example x (Int label));;
  open_w filename;;
  print_to filename (Text "Index X Y Type");;
  for_each (range nInstances) (fun i =>
    '(x, label) ← next_generate_clf_point strategy;
    print_to filename (Row i x (Int label))).

Definition reg_split (dirname strategy command : string) : SE world unit :=
  let filename := reg_filename dirname command in
  print (Text ("Creating data in " +:+ filename));;
  print (Text ("Shape: " +:+ strategy));;
  '(x, y) ← next_generate_reg_point strategy;
  print (Example x y);;
  open_w filename;;
  print_to filename (Text "Index X Y");;
  for_each (range nInstances) (fun i =>
    '(x, y) ← next_generate_reg_point strategy;
    print_to filename (Row i x y)).

(** The module body after argument parsing. *)
Definition main (dirname : string) (a : args) : SE world unit :=
  match clf a with
  | Some strategy =>
      seed 1337;;
      for_each ["train"; "test"] (clf_split dirname strategy)
  | None => mret ()
  end;;
  match reg a with
  | Some strategy =>
      seed 1337;;
      for_each ["train"; "test"] (reg_split dirname strategy)
  | None => mret ()
  end;;
  match clf a, reg a with
  | None, None => print (Text "Nothing to do.")
  | _, _ => print (Text "Done.")
  end.

End Script.

(** ** The strategies and the samples of both generators

    The strategies are the [choices] of the two command-line options. *)
Definition clf_strategies : list string :=
  ["halfs"; "quarters"; "diagonal"; "circle"; "ellipse"; "circles";
   "shifteddiagonal"; "bernoulli"].

Definition reg_strategies : list string :=
  ["linear"; "twodimlinear"; "multidimlinear"; "quadratic"; "twodimquadratic";
   "cubic"; "twodimcubic"].

Inductive task := Classification | Regression.

Definition strategies (t : task) : list string :=
  match t with
  | Classification => clf_strategies
  | Regression => reg_strategies
  end.

Definition supported (t : task) (strategy : string) : bool :=
  existsb (String.eqb strategy) (strategies t).

(** A sample as it is printed: the features and the label or target. *)
Definition sample : Type := list value * value.

Definition clf_printed (smp : list value * Z) : sample := (smp.1, Int smp.2).

(** What holds of the result of a pull that yields; a pull that raises
    satisfies nothing. *)
Definition yields {A} (P : A -> Prop) (r : exn + A) : Prop :=
  match r with
  | inr a => P a
  | inl _ => False
  end.

Definition raises {A} (P : exn -> Prop) (r : exn + A) : Prop :=
  match r with
  | inr _ => False
  | inl e => P e
  end.

(** A float with [ndigits] decimals: the float nearest to an integer
    multiple of [10^-ndigits].  An [int] has no decimals. *)
Definition rounded_to (ndigits : Z) (v : value) : Prop :=
  match v with
  | Int _ => True
  | Float f => exists q : Z, f = RN (inject_Z q / 10 ^ ndigits)
  end.

Definition between (lo hi : Q) (v : value) : Prop :=
  (lo <= number v /\ number v <= hi)%Q.

Section Pulls.

Context {R : RandomSource} {P : FloatPow}.

(** A generator object of either kind, and the builtin [next] on it. *)
Inductive generator :=
| Clf (g : clf_generator)
| Reg (g : reg_generator).

Definition next (g : generator) (s : rng) : (exn + sample) * generator * rng :=
  match g with
  | Clf g =>
      let '(r, g', s') := clf_next g s in
      (match r with inl e => inl e | inr smp => inr (clf_printed smp) end, Clf g', s')
  | Reg g =>
      let '(r, g', s') := reg_next g s in (r, Reg g', s')
  end.

Definition generate (t : task) (strategy : string) : generator :=
  match t with
  | Classification => Clf (generate_clf_point strategy)
  | Regression => Reg (generate_reg_point strategy)
  end.

Definition task_of (g : generator) : task :=
  match g with Clf _ => Classification | Reg _ => Regression end.

Definition strategy_of (g : generator) : string :=
  match g with Clf g => clf_strategy g | Reg g => reg_strategy g end.

Definition status_of (g : generator) : gen_status :=
  match g with Clf g => clf_status g | Reg g => reg_status g end.

(** [next(generate_..._point(strategy))]: the generator object is dropped. *)
Definition pull (t : task) (strategy : string) (s : rng) : (exn + sample) * rng :=
  let '(r, _, s') := next (generate t strategy) s in (r, s').

(** [n] samples, each from a generator of its own, as the script draws
    them, and the random source after them.  Drawing stops at an
    exception. *)
Fixpoint pulls (t : task) (strategy : string) (n : nat) (s : rng) : list sample * rng :=
  match n with
  | O => ([], s)
  | S n =>
      match pull t strategy s with
      | (inr smp, s') =>
          let '(l, s'') := pulls t strategy n s' in (smp :: l, s'')
      | (inl _, s') => ([], s')
      end
  end.

(** [n] samples from one generator object that is kept and resumed. *)
Fixpoint resume (n : nat) (g : generator) (s : rng) : list sample * rng :=
  match n with
  | O => ([], s)
  | S n =>
      match next g s with
      | (inr smp, g', s') =>
          let '(l, s'') := resume n g' s' in (smp :: l, s'')
      | (inl _, _, s') => ([], s')
      end
  end.

End Pulls.

(** The rows [i], [i + 1], ... of a file, one per sample. *)
Fixpoint rows (i : Z) (l : list sample) : list line :=
  match l with
  | [] => []
  | (x, y) :: l => Row i x y :: rows (i + 1) l
  end.

Definition header (t : task) : line :=
  match t with
  | Classification => Text "Index X Y Type"
  | Regression => Text "Index X Y"
  end.

Definition filename (t : task) (dirname command : string) : string :=
  match t with
  | Classification => clf_filename dirname command
  | Regression => reg_filename dirname command
  end.

(** The command line that asks for one task. *)
Definition task_args (t : task) (strategy : string) : args :=
  match t with
  | Classification => {| clf := Some strategy; reg := None |}
  | Regression => {| clf := None; reg := Some strategy |}
  end.

(** ** Bounds on rounded values *)

Section RoundingBounds.

Local Open Scope Q_scope.

Lemma pow2_le_inv a b : pow2 a <= pow2 b -> (a <= b)%Z.
Proof. intros H. apply (Qpower_le_compat_l_inv 2); [exact H | reflexivity]. Qed.

(** Rounding does not cross a power of two. *)
Lemma RN_le_pow2 x t : x <= pow2 t -> RN x <= pow2 t.
Proof.
  intros Hx. assert (Ht := pow2_pos t).
  destruct (Qlt_le_dec 0 x) as [Hpos|Hneg].
  2:{ apply Qle_trans with 0; [apply RN_nonpos; exact Hneg | lra]. }
  unfold RN.
  assert (Er : Qred x == x) by apply Qred_correct.
  set (x' := Qred x) in *. clearbody x'. destruct (_ =? _)%Z; [lra|].
  assert (Ea : Qabs x' == x') by (apply Qabs_pos; lra).
  assert (Hx' : 0 < Qabs x') by lra.
  destruct (ilog2_spec _ Hx') as [L _].
  set (l := ilog2 (Qabs x')) in *. clearbody l.
  assert (Hl : (l - 52 <= t)%Z) by (enough (l <= t)%Z by lia; apply pow2_le_inv; lra).
  set (e := (l - 52)%Z) in *. clearbody e.
  assert (He := pow2_pos e).
  rewrite (Qred_correct (_ * _)).
  assert (Hq : x' / pow2 e <= inject_Z (2 ^ (t - e))).
  { rewrite <- pow2_inject by lia. rewrite pow2_sub.
    apply Qle_shift_div_r; [exact He|].
    assert (EQ : pow2 t / pow2 e * pow2 e == pow2 t) by (field; lra).
    rewrite EQ. lra. }
  apply round_half_even_upper in Hq. rewrite Zle_Qle in Hq.
  rewrite <- pow2_inject, pow2_sub in Hq by lia.
  apply Qle_trans with (pow2 t / pow2 e * pow2 e).
  - apply Qmult_le_compat_r; [exact Hq | lra].
  - assert (EQ : pow2 t / pow2 e * pow2 e == pow2 t) by (field; lra).
    rewrite EQ. lra.
Qed.

Lemma RN_ge_opp_pow2 x t : - pow2 t <= x -> - pow2 t <= RN x.
Proof.
  intros Hx. assert (Ht := pow2_pos t).
  destruct (Qlt_le_dec x 0) as [Hneg|Hpos].
  2:{ apply Qle_trans with 0; [lra | apply RN_nonneg; exact Hpos]. }
  unfold RN.
  assert (Er : Qred x == x) by apply Qred_correct.
  set (x' := Qred x) in *. clearbody x'. destruct (_ =? _)%Z; [lra|].
  assert (Ea : Qabs x' == - x') by (apply Qabs_neg; lra).
  assert (Hx' : 0 < Qabs x') by lra.
  destruct (ilog2_spec _ Hx') as [L _].
  set (l := ilog2 (Qabs x')) in *. clearbody l.
  assert (Hl : (l - 52 <= t)%Z) by (enough (l <= t)%Z by lia; apply pow2_le_inv; lra).
  set (e := (l - 52)%Z) in *. clearbody e.
  assert (He := pow2_pos e).
  rewrite (Qred_correct (_ * _)).
  assert (Hq : inject_Z (- 2 ^ (t - e)) <= x' / pow2 e).
  { rewrite inject_Z_opp, <- pow2_inject by lia. rewrite pow2_sub.
    apply Qle_shift_div_l; [exact He|].
    assert (EQ : - (pow2 t / pow2 e) * pow2 e == - pow2 t) by (field; lra).
    rewrite EQ. lra. }
  apply round_half_even_lower in Hq. rewrite Zle_Qle in Hq.
  rewrite inject_Z_opp, <- pow2_inject, pow2_sub in Hq by lia.
  apply Qle_trans with (- (pow2 t / pow2 e) * pow2 e).
  - assert (EQ : - (pow2 t / pow2 e) * pow2 e == - pow2 t) by (field; lra).
    rewrite EQ. lra.
  - apply Qmult_le_compat_r; [exact Hq | lra].
Qed.

Lemma pow10_inject (n : Z) : (0 <= n)%Z -> 10 ^ n == inject_Z (10 ^ n).
Proof. intros H. rewrite Zpower_Qpower by assumption. reflexivity. Qed.

Lemma pow10_pos (n : Z) : 0 < 10 ^ n.
Proof. apply Qpower_0_lt. reflexivity. Qed.

(** [round] keeps a float on its side of -1, 0 and 1. *)
Lemma round_float_le_1 x n : (0 <= n)%Z -> x <= 1 -> round_float x n <= 1.
Proof.
  intros Hn Hx. unfold round_float. apply (RN_le_pow2 _ 0).
  assert (P := pow10_pos n). change (pow2 0) with 1.
  apply Qle_shift_div_r; [exact P|]. rewrite Qmult_1_l.
  rewrite (pow10_inject n Hn) at 2. rewrite <- Zle_Qle.
  apply round_half_even_upper. rewrite <- pow10_inject by assumption. nra.
Qed.

Lemma round_float_ge_m1 x n : (0 <= n)%Z -> -1 <= x -> -1 <= round_float x n.
Proof.
  intros Hn Hx. unfold round_float. apply (RN_ge_opp_pow2 _ 0).
  assert (P := pow10_pos n). change (pow2 0) with 1.
  apply Qle_shift_div_l; [exact P|].
  assert (EQ : -1 * 10 ^ n == inject_Z (- 10 ^ n)).
  { rewrite inject_Z_opp, <- pow10_inject by assumption. ring. }
  rewrite EQ. rewrite <- Zle_Qle.
  apply round_half_even_lower. rewrite <- EQ. nra.
Qed.

Lemma round_float_nonneg x n : 0 <= x -> 0 <= round_float x n.
Proof.
  intros Hx. unfold round_float. apply RN_nonneg.
  assert (P := pow10_pos n).
  apply Qle_shift_div_l; [exact P|]. rewrite Qmult_0_l.
  rewrite <- (Zle_Qle 0). apply round_half_even_lower.
  change (inject_Z 0) with 0. nra.
Qed.

Lemma round_float_nonpos x n : x <= 0 -> round_float x n <= 0.
Proof.
  intros Hx. unfold round_float. apply RN_nonpos.
  assert (P := pow10_pos n).
  apply Qle_shift_div_r; [exact P|]. rewrite Qmult_0_l.
  rewrite <- (Zle_Qle _ 0). apply round_half_even_upper.
  change (inject_Z 0) with 0. nra.
Qed.

Lemma pow2_m53 : pow2 (-53) = 1 # 9007199254740992.
Proof. vm_compute. reflexivity. Qed.

Lemma pow2_m52 : pow2 (-52) = 1 # 4503599627370496.
Proof. vm_compute. reflexivity. Qed.

Ltac q_arith :=
  unfold Qeq, Qle, Qlt, Qminus, Qplus, Qmult, Qopp, inject_Z;
  cbn [Qnum Qden]; lia.

(** The values of [random.random()], [-random.random()] and
    [2 * random.random() - 1]: no rounding occurs. *)
Lemma unit_draw_range k : (0 <= k < 2 ^ 53)%Z -> 0 <= dyadic k (-53) /\ dyadic k (-53) <= 1.
Proof.
  intros Hk. rewrite dyadic_eq, pow2_m53. split; q_arith.
Qed.

Lemma fneg_unit_draw_range k :
  (0 <= k < 2 ^ 53)%Z -> -1 <= fneg (dyadic k (-53)) /\ fneg (dyadic k (-53)) <= 0.
Proof.
  intros Hk. destruct (unit_draw_range k Hk) as [H1 H2]. unfold fneg.
  rewrite Qred_correct. lra.
Qed.

Lemma coordinate_value k :
  (0 <= k < 2 ^ 53)%Z -> fsub (fmul 2 (dyadic k (-53))) 1 = dyadic (k - 2 ^ 52) (-52).
Proof.
  intros Hk. unfold fsub, fmul.
  rewrite (RN_dyadic k (-52) (2 * dyadic k (-53))); cycle 1.
  { lia. }
  { rewrite dyadic_eq, pow2_m53, pow2_m52. q_arith. }
  apply RN_dyadic; [lia|].
  rewrite dyadic_eq, pow2_m52. q_arith.
Qed.

Lemma coordinate_range k :
  (0 <= k < 2 ^ 53)%Z ->
  -1 <= dyadic (k - 2 ^ 52) (-52) /\ dyadic (k - 2 ^ 52) (-52) <= 1.
Proof.
  intros Hk. rewrite dyadic_eq, pow2_m52. split; q_arith.
Qed.

End RoundingBounds.

(** ** Rounding is monotone *)

Section RoundingOrder.

Local Open Scope Q_scope.

Lemma Qfloor_bounds x : inject_Z (Qfloor x) <= x /\ x < inject_Z (Qfloor x) + 1.
Proof.
  split; [apply Qfloor_le|].
  assert (H := Qlt_floor x). rewrite inject_Z_plus in H. exact H.
Qed.

Lemma round_half_even_near x :
  (Qfloor x <= round_half_even x <= Qfloor x + 1)%Z.
Proof.
  unfold round_half_even. destruct (_ ?= _); [destruct (Z.even _)| |]; lia.
Qed.

Lemma round_half_even_monotone x y :
  x <= y -> (round_half_even x <= round_half_even y)%Z.
Proof.
  intros Hxy.
  assert (Hf : (Qfloor x <= Qfloor y)%Z) by (apply Qfloor_resp_le; exact Hxy).
  destruct (Z.eq_dec (Qfloor x) (Qfloor y)) as [E|NE].
  - unfold round_half_even. rewrite <- E.
    destruct (Qcompare_spec (x - inject_Z (Qfloor x)) (1 # 2)) as [Hx|Hx|Hx];
      destruct (Qcompare_spec (y - inject_Z (Qfloor x)) (1 # 2)) as [Hy|Hy|Hy];
      try (destruct (Z.even (Qfloor x))); try lia; exfalso; lra.
  - assert (H1 := round_half_even_near x). assert (H2 := round_half_even_near y). lia.
Qed.

Lemma RN_ge_pow2 x t : pow2 t <= x -> pow2 t <= RN x.
Proof.
  intros Hx. assert (Ht := pow2_pos t). unfold RN.
  assert (Er : Qred x == x) by apply Qred_correct.
  set (x' := Qred x) in *. clearbody x'.
  destruct (Z.eqb_spec (Qnum x') 0) as [E0|N0].
  { apply Qnum_zero in E0. lra. }
  assert (Ea : Qabs x' == x') by (apply Qabs_pos; lra).
  assert (Hx' : 0 < Qabs x') by lra.
  destruct (ilog2_spec _ Hx') as [L U].
  set (l := ilog2 (Qabs x')) in *. clearbody l.
  assert (Hl : (t <= l)%Z).
  { enough (t < l + 1)%Z by lia. apply pow2_lt_inv. lra. }
  apply Qle_trans with (pow2 l); [apply pow2_le, Hl|].
  assert (E52 : (l = (l - 52) + 52)%Z) by lia.
  set (e := (l - 52)%Z) in *. clearbody e. subst l.
  assert (He := pow2_pos e).
  rewrite (Qred_correct (_ * _)).
  assert (Hq : inject_Z (2 ^ 52) <= x' / pow2 e).
  { rewrite <- pow2_inject by lia.
    apply Qle_shift_div_l; [exact He|]. rewrite <- pow2_add, Z.add_comm. lra. }
  apply round_half_even_lower in Hq. rewrite Zle_Qle in Hq.
  rewrite <- pow2_inject in Hq by lia.
  rewrite pow2_add. rewrite (Qmult_comm (pow2 e)).
  apply Qmult_le_compat_r; [exact Hq | lra].
Qed.

Lemma RN_le_opp_pow2 x t : x <= - pow2 t -> RN x <= - pow2 t.
Proof.
  intros Hx. assert (Ht := pow2_pos t). unfold RN.
  assert (Er : Qred x == x) by apply Qred_correct.
  set (x' := Qred x) in *. clearbody x'.
  destruct (Z.eqb_spec (Qnum x') 0) as [E0|N0].
  { apply Qnum_zero in E0. lra. }
  assert (Ea : Qabs x' == - x') by (apply Qabs_neg; lra).
  assert (Hx' : 0 < Qabs x') by lra.
  destruct (ilog2_spec _ Hx') as [L U].
  set (l := ilog2 (Qabs x')) in *. clearbody l.
  assert (Hl : (t <= l)%Z).
  { enough (t < l + 1)%Z by lia. apply pow2_lt_inv. lra. }
  apply Qle_trans with (- pow2 l); [|assert (P := pow2_le t l Hl); lra].
  assert (E52 : (l = (l - 52) + 52)%Z) by lia.
  set (e := (l - 52)%Z) in *. clearbody e. subst l.
  assert (He := pow2_pos e).
  rewrite (Qred_correct (_ * _)).
  assert (P := pow2_add e 52).
  assert (Hq : x' / pow2 e <= inject_Z (- 2 ^ 52)).
  { rewrite inject_Z_opp, <- pow2_inject by lia.
    apply Qle_shift_div_r; [exact He|]. rewrite (Qmult_comm _ (pow2 e)).
    assert (EQ : pow2 e * - pow2 52 == - (pow2 e * pow2 52)) by ring.
    rewrite EQ, <- P. lra. }
  apply round_half_even_upper in Hq. rewrite Zle_Qle in Hq.
  rewrite inject_Z_opp, <- pow2_inject in Hq by lia.
  rewrite P.
  assert (EQ : - (pow2 e * pow2 52) == - pow2 52 * pow2 e) by ring.
  rewrite EQ. apply Qmult_le_compat_r; [exact Hq | lra].
Qed.


Lemma RN_neg x : x < 0 -> RN x < 0.
Proof.
  intros Hx. assert (Hx' : 0 < - x) by lra.
  destruct (ilog2_spec (- x) Hx') as [L _].
  apply Qle_lt_trans with (- pow2 (ilog2 (- x))).
  - apply RN_le_opp_pow2. lra.
  - assert (P := pow2_pos (ilog2 (- x))). lra.
Qed.

Lemma RN_value x :
  ~ x == 0 ->
  RN x == inject_Z (round_half_even (x / pow2 (ilog2 (Qabs x) - 52)))
          * pow2 (ilog2 (Qabs x) - 52).
Proof.
  intros Hx. unfold RN.
  assert (Er : Qred x == x) by apply Qred_correct.
  destruct (Z.eqb_spec (Qnum (Qred x)) 0) as [E0|N0].
  { exfalso. apply Hx. rewrite <- Er. apply Qnum_zero, E0. }
  rewrite (Qred_correct (_ * _)).
  assert (Ha : Qabs (Qred x) == Qabs x) by (rewrite Er; reflexivity).
  assert (Hpos : 0 < Qabs x).
  { destruct (Qlt_le_dec 0 x) as [H|H].
    - rewrite Qabs_pos; lra.
    - rewrite Qabs_neg by exact H.
      destruct (Qeq_dec x 0) as [E|NE]; [contradiction|]. lra. }
  destruct (ilog2_spec _ Hpos) as [L U].
  assert (El : ilog2 (Qabs (Qred x)) = ilog2 (Qabs x)).
  { apply ilog2_unique; rewrite Ha; assumption. }
  rewrite El.
  set (e := (ilog2 (Qabs x) - 52)%Z).
  assert (Eq : Qred x / pow2 e == x / pow2 e) by (rewrite Er; reflexivity).
  rewrite (round_half_even_proper _ _ Eq). reflexivity.
Qed.

(** Rounding to binary64 is monotone. *)
Lemma RN_monotone x y : x <= y -> RN x <= RN y.
Proof.
  intros Hxy.
  destruct (Qlt_le_dec 0 x) as [Hx|Hx].
  - (* 0 < x <= y *)
    assert (Hy : 0 < y) by lra.
    destruct (ilog2_spec x Hx) as [Lx Ux]. destruct (ilog2_spec y Hy) as [Ly Uy].
    assert (Hl : (ilog2 x <= ilog2 y)%Z).
    { enough (ilog2 x < ilog2 y + 1)%Z by lia. apply pow2_lt_inv. lra. }
    destruct (Z.eq_dec (ilog2 x) (ilog2 y)) as [E|NE].
    + assert (Eax : ilog2 (Qabs x) = ilog2 x).
      { apply ilog2_unique; rewrite Qabs_pos by lra; assumption. }
      assert (Eay : ilog2 (Qabs y) = ilog2 y).
      { apply ilog2_unique; rewrite Qabs_pos by lra; assumption. }
      rewrite (RN_value x), (RN_value y) by lra.
      rewrite Eax, Eay, <- E.
      set (e := (ilog2 x - 52)%Z). assert (He := pow2_pos e).
      apply Qmult_le_compat_r; [|lra].
      rewrite <- Zle_Qle. apply round_half_even_monotone.
      apply Qmult_le_compat_r; [exact Hxy|].
      apply Qlt_le_weak, Qinv_lt_0_compat, He.
    + apply Qle_trans with (pow2 (ilog2 x + 1)).
      * apply RN_le_pow2. lra.
      * apply Qle_trans with (pow2 (ilog2 y)); [apply pow2_le; lia|].
        apply RN_ge_pow2, Ly.
  - destruct (Qlt_le_dec y 0) as [Hy|Hy].
    + (* x <= y < 0 *)
      assert (Hx' : 0 < - x) by lra. assert (Hy' : 0 < - y) by lra.
      destruct (ilog2_spec _ Hx') as [Lx Ux]. destruct (ilog2_spec _ Hy') as [Ly Uy].
      assert (Hl : (ilog2 (- y) <= ilog2 (- x))%Z).
      { enough (ilog2 (- y) < ilog2 (- x) + 1)%Z by lia. apply pow2_lt_inv. lra. }
      assert (Eax : ilog2 (Qabs x) = ilog2 (- x)).
      { apply ilog2_unique; rewrite Qabs_neg by lra; assumption. }
      assert (Eay : ilog2 (Qabs y) = ilog2 (- y)).
      { apply ilog2_unique; rewrite Qabs_neg by lra; assumption. }
      destruct (Z.eq_dec (ilog2 (- x)) (ilog2 (- y))) as [E|NE].
      * rewrite (RN_value x), (RN_value y) by lra.
        rewrite Eax, Eay, <- E.
        set (e := (ilog2 (- x) - 52)%Z). assert (He := pow2_pos e).
        apply Qmult_le_compat_r; [|lra].
        rewrite <- Zle_Qle. apply round_half_even_monotone.
        apply Qmult_le_compat_r; [exact Hxy|].
        apply Qlt_le_weak, Qinv_lt_0_compat, He.
      * apply Qle_trans with (- pow2 (ilog2 (- x))).
        -- apply RN_le_opp_pow2. lra.
        -- apply Qle_trans with (- pow2 (ilog2 (- y) + 1)).
           ++ assert (P := pow2_le (ilog2 (- y) + 1) (ilog2 (- x)) ltac:(lia)). lra.
           ++ apply RN_ge_opp_pow2. lra.
    + apply Qle_trans with 0; [apply RN_nonpos, Hx | apply RN_nonneg, Hy].
Qed.


End RoundingOrder.

(** ** The error of one rounding *)

Section RoundingError.

Local Open Scope Q_scope.

Lemma round_half_even_error x :
  inject_Z (round_half_even x) - x <= 1 # 2 /\
  x - inject_Z (round_half_even x) <= 1 # 2.
Proof.
  unfold round_half_even.
  destruct (Qfloor_bounds x) as [H1 H2].
  set (f := Qfloor x) in *. clearbody f.
  destruct (x - inject_Z f ?= 1 # 2) eqn:E.
  - apply Qeq_alt in E.
    destruct (Z.even f); rewrite ?inject_Z_plus; change (inject_Z 1) with 1; lra.
  - apply Qlt_alt in E. lra.
  - apply Qgt_alt in E. rewrite inject_Z_plus. change (inject_Z 1) with 1. lra.
Qed.

Lemma Qabs_pos_neq z : ~ z == 0 -> 0 < Qabs z.
Proof.
  intros Nz. destruct (Qlt_le_dec 0 z) as [H|H].
  - rewrite Qabs_pos by lra. exact H.
  - rewrite Qabs_neg by exact H.
    destruct (Qle_lt_or_eq _ _ H) as [L|E]; [lra|]. exfalso. apply Nz, E.
Qed.

Lemma Qabs_bound x b : - b <= x -> x <= b -> Qabs x <= b.
Proof. intros H1 H2. apply Qabs_Qle_condition. split; assumption. Qed.

(** One rounding is off by at most half a unit of the last place, which
    is at most [2^-53] of the number. *)
Lemma RN_error z : Qabs (RN z - z) <= pow2 (-53) * Qabs z.
Proof.
  destruct (Qeq_dec z 0) as [Ez|Nz].
  { assert (E : RN z = RN 0) by (apply RN_proper; exact Ez).
    rewrite E. change (RN 0) with 0. rewrite Ez. vm_compute. discriminate. }
  rewrite (RN_value z Nz).
  assert (Hpos := Qabs_pos_neq z Nz).
  destruct (ilog2_spec (Qabs z) Hpos) as [Hl _].
  set (t := ilog2 (Qabs z)) in *. clearbody t.
  assert (He := pow2_pos (t - 52)).
  destruct (round_half_even_error (z / pow2 (t - 52))) as [E1 E2].
  set (m := inject_Z (round_half_even (z / pow2 (t - 52)))) in *. clearbody m.
  assert (Hs : pow2 (-53) * pow2 t == pow2 (t - 52) * (1 # 2)).
  { rewrite pow2_sub, pow2_m53.
    assert (E52 : pow2 52 == 4503599627370496) by (vm_compute; reflexivity).
    rewrite E52. field. }
  assert (Hb : pow2 (t - 52) * (1 # 2) <= pow2 (-53) * Qabs z).
  { rewrite <- Hs. apply Qmult_le_l; [rewrite pow2_m53; reflexivity|exact Hl]. }
  set (e := pow2 (t - 52)) in *. clearbody e.
  set (B := pow2 (-53) * Qabs z) in *. clearbody B.
  assert (D1 : m * e - z == (m - z / e) * e) by (field; lra).
  assert (P1 : (m - z / e) * e <= (1 # 2) * e) by (apply Qmult_le_compat_r; lra).
  assert (P2 : (- (1 # 2)) * e <= (m - z / e) * e) by (apply Qmult_le_compat_r; lra).
  apply Qabs_bound; lra.
Qed.

End RoundingError.

(** ** Square roots next to 1/2 *)

Section SquareRoot.

Local Open Scope Q_scope.

(** The shape of a square root: a significand [r] next to the integer
    square root [m] of the scaled argument, at the exponent [e]. *)
Lemma fsqrt_shape x :
  0 < x ->
  let e := (ilog2 x / 2 - 52)%Z in
  let m := Z.sqrt (Qfloor (x / pow2 (2 * e))) in
  exists r : Z, (m <= r <= m + 1)%Z /\ fsqrt x == inject_Z r * pow2 e.
Proof.
  intros Hx e m. unfold fsqrt.
  assert (Hb : Qle_bool x 0 = false).
  { destruct (Qle_bool x 0) eqn:E; [|reflexivity].
    apply Qle_bool_iff in E. exfalso. lra. }
  rewrite Hb. cbv zeta. fold e. fold m.
  destruct (_ ?= _).
  - destruct (Z.even m); eexists; (split; [|apply Qred_correct]); lia.
  - eexists; (split; [|apply Qred_correct]); lia.
  - eexists; (split; [|apply Qred_correct]); lia.
Qed.

Lemma pow2_104 : pow2 104 == inject_Z (2 ^ 104).
Proof. apply pow2_inject. lia. Qed.

Lemma scaled_bounds x :
  0 < x ->
  let e := (ilog2 x / 2 - 52)%Z in
  pow2 104 <= x / pow2 (2 * e) /\ x / pow2 (2 * e) < pow2 106.
Proof.
  intros Hx e. destruct (ilog2_spec x Hx) as [H1 H2].
  set (t := ilog2 x) in *. 
  assert (Hq : (2 * (t / 2) <= t < 2 * (t / 2) + 2)%Z).
  { assert (H := Z.div_mod t 2 ltac:(lia)).
    assert (H' := Z.mod_pos_bound t 2 ltac:(lia)). lia. }
  assert (He : (2 * e = 2 * (t / 2) - 104)%Z) by (subst e; lia).
  rewrite He. set (q := (2 * (t / 2))%Z) in *. clearbody q. clearbody t.
  assert (Hp := pow2_pos (q - 104)).
  assert (L1 : pow2 q <= pow2 t) by (apply pow2_le; lia).
  assert (L2 : pow2 (t + 1) <= pow2 (q + 2)) by (apply pow2_le; lia).
  assert (E1 : pow2 q == pow2 104 * pow2 (q - 104)).
  { rewrite <- pow2_add. replace (104 + (q - 104))%Z with q by lia. reflexivity. }
  assert (E2 : pow2 (q + 2) == pow2 106 * pow2 (q - 104)).
  { rewrite <- pow2_add. replace (106 + (q - 104))%Z with (q + 2)%Z by lia. reflexivity. }
  set (d := pow2 (q - 104)) in *. clearbody d.
  split.
  - apply Qle_shift_div_l; [exact Hp|]. lra.
  - apply Qlt_shift_div_r; [exact Hp|]. lra.
Qed.

(** A number of at least 1/4 has a square root of at least 1/2. *)
Lemma fsqrt_ge_half c : 1 # 4 <= c -> 1 # 2 <= fsqrt c.
Proof.
  intros Hc. assert (Hx : 0 < c) by lra.
  destruct (fsqrt_shape c Hx) as (r & Hr & ->).
  destruct (scaled_bounds c Hx) as [Hy _].
  cbv zeta in *.
  assert (Ht : (-2 <= ilog2 c)%Z).
  { destruct (ilog2_spec c Hx) as [_ H2].
    assert (H : pow2 (-2) < pow2 (ilog2 c + 1)).
    { assert (E : pow2 (-2) == 1 # 4) by (vm_compute; reflexivity). lra. }
    apply pow2_lt_inv in H. lia. }
  assert (Hq : (-1 <= ilog2 c / 2)%Z) by (apply Z.div_le_lower_bound; lia).
  set (e := (ilog2 c / 2 - 52)%Z) in *.
  assert (He : (-53 <= e)%Z) by (subst e; lia).
  clearbody e.
  set (y := c / pow2 (2 * e)) in *. clearbody y.
  assert (Hfl : (2 ^ 104 <= Qfloor y)%Z).
  { assert (H : (Qfloor (inject_Z (2 ^ 104)) <= Qfloor y)%Z).
    { apply Qfloor_resp_le. rewrite <- pow2_104. exact Hy. }
    rewrite Qfloor_Z in H. exact H. }
  assert (Hm : (2 ^ 52 <= Z.sqrt (Qfloor y))%Z).
  { apply Z.sqrt_le_square; [lia|lia|].
    change (2 ^ 52 * 2 ^ 52)%Z with (2 ^ 104)%Z. exact Hfl. }
  assert (Hr52 : inject_Z (2 ^ 52) <= inject_Z r).
  { rewrite <- Zle_Qle. lia. }
  assert (Hp : pow2 (-53) <= pow2 e) by (apply pow2_le; lia).
  assert (E53 : pow2 (-53) == 1 # 9007199254740992) by (rewrite pow2_m53; reflexivity).
  assert (Hpe := pow2_pos e).
  set (p := pow2 e) in *. clearbody p.
  change (inject_Z (2 ^ 52)) with 4503599627370496 in Hr52.
  set (ri := inject_Z r) in *. clearbody ri.
  assert (P : 4503599627370496 * p <= ri * p) by (apply Qmult_le_compat_r; lra).
  lra.
Qed.

(** A number below 1/4 by two units of its last place has a square root
    below 1/2. *)
Lemma fsqrt_lt_half c : c <= (1 # 4) - pow2 (-53) -> fsqrt c < 1 # 2.
Proof.
  intros Hc.
  assert (E53 : pow2 (-53) == 1 # 9007199254740992) by (rewrite pow2_m53; reflexivity).
  destruct (Qlt_le_dec 0 c) as [Hx|Hx]; cycle 1.
  { unfold fsqrt. apply Qle_bool_iff in Hx. rewrite Hx. reflexivity. }
  destruct (fsqrt_shape c Hx) as (r & Hr & ->).
  destruct (scaled_bounds c Hx) as [_ Hy].
  cbv zeta in *.
  assert (Ht : (ilog2 c <= -3)%Z).
  { destruct (ilog2_spec c Hx) as [H1 _].
    assert (H : pow2 (ilog2 c) < pow2 (-2)).
    { assert (E : pow2 (-2) == 1 # 4) by (vm_compute; reflexivity). lra. }
    apply pow2_lt_inv in H. lia. }
  assert (Hq : (ilog2 c / 2 <= -2)%Z).
  { assert (H := Z.div_mod (ilog2 c) 2 ltac:(lia)).
    assert (H' := Z.mod_pos_bound (ilog2 c) 2 ltac:(lia)). lia. }
  set (e := (ilog2 c / 2 - 52)%Z) in *.
  assert (He : (e <= -54)%Z) by (subst e; lia).
  clearbody e.
  assert (Hy0 : 0 <= c / pow2 (2 * e)).
  { apply Qle_shift_div_l; [apply pow2_pos|]. lra. }
  assert (Hf0 : (0 <= Qfloor (c / pow2 (2 * e)))%Z).
  { assert (H : (Qfloor 0 <= Qfloor (c / pow2 (2 * e)))%Z) by (apply Qfloor_resp_le; exact Hy0).
    exact H. }
  assert (Hpe := pow2_pos e).
  destruct (Z.eq_dec e (-54)%Z) as [->|Hne].
  - (* the binade just below 1/4 *)
    assert (Hy' : c / pow2 (2 * -54) <= inject_Z (2 ^ 106 - 2 ^ 55)).
    { apply Qle_shift_div_r; [apply pow2_pos|].
      assert (E : pow2 (2 * -54) == 1 # (2 ^ 108)) by (vm_compute; reflexivity).
      rewrite E. 
      assert (E' : inject_Z (2 ^ 106 - 2 ^ 55) * (1 # 2 ^ 108) == (1 # 4) - (1 # 9007199254740992))
        by (vm_compute; reflexivity).
      rewrite E'. lra. }
    set (y := c / pow2 (2 * -54)) in *. clearbody y.
    assert (Hfl : (Qfloor y <= 2 ^ 106 - 2 ^ 55)%Z).
    { assert (H : (Qfloor y <= Qfloor (inject_Z (2 ^ 106 - 2 ^ 55)))%Z)
        by (apply Qfloor_resp_le; exact Hy').
      rewrite Qfloor_Z in H. exact H. }
    assert (Hm : (Z.sqrt (Qfloor y) < 2 ^ 53 - 1)%Z).
    { apply Z.sqrt_lt_square; [lia|lia|]. 
      assert (E : ((2 ^ 53 - 1) * (2 ^ 53 - 1) = 2 ^ 106 - 2 ^ 54 + 1)%Z) by reflexivity.
      rewrite E. lia. }
    assert (Hr' : inject_Z r <= inject_Z (2 ^ 53 - 1)) by (rewrite <- Zle_Qle; lia).
    assert (E54 : pow2 (-54) == 1 # (2 ^ 54)) by (vm_compute; reflexivity).
    rewrite E54.
    set (ri := inject_Z r) in *. clearbody ri.
    assert (P : ri * (1 # 2 ^ 54) <= inject_Z (2 ^ 53 - 1) * (1 # 2 ^ 54))
      by (apply Qmult_le_compat_r; [exact Hr'|discriminate]).
    assert (Q : inject_Z (2 ^ 53 - 1) * (1 # 2 ^ 54) < 1 # 2) by (vm_compute; reflexivity).
    lra.
  - assert (He' : (e <= -55)%Z) by lia.
    set (y := c / pow2 (2 * e)) in *. clearbody y.
    assert (Hfl : (Qfloor y < 2 ^ 106)%Z).
    { assert (H := Qfloor_le y).
      assert (H106 : pow2 106 == inject_Z (2 ^ 106)) by (apply pow2_inject; lia).
      rewrite H106 in Hy.
      assert (H' : inject_Z (Qfloor y) < inject_Z (2 ^ 106)) by lra.
      rewrite <- Zlt_Qlt in H'. exact H'. }
    assert (Hm : (Z.sqrt (Qfloor y) < 2 ^ 53)%Z).
    { apply Z.sqrt_lt_square; [lia|lia|].
      change (2 ^ 53 * 2 ^ 53)%Z with (2 ^ 106)%Z. exact Hfl. }
    assert (Hr' : inject_Z r <= inject_Z (2 ^ 53)) by (rewrite <- Zle_Qle; lia).
    assert (Hp : pow2 e <= pow2 (-55)) by (apply pow2_le; lia).
    assert (E55 : pow2 (-55) == 1 # (2 ^ 55)) by (vm_compute; reflexivity).
    assert (Hr0 : 0 <= inject_Z r).
    { change 0 with (inject_Z 0). rewrite <- Zle_Qle.
      assert (H := Z.sqrt_nonneg (Qfloor y)). lia. }
    set (p := pow2 e) in *. clearbody p.
    set (ri := inject_Z r) in *. clearbody ri.
    change (inject_Z (2 ^ 53)) with 9007199254740992 in Hr'.
    assert (P : ri * p <= 9007199254740992 * p) by (apply Qmult_le_compat_r; lra).
    assert (E : 9007199254740992 * (1 # 2 ^ 55) == 1 # 4) by (vm_compute; reflexivity).
    lra.
Qed.

End SquareRoot.

(** ** Facts about the generators *)

Ltac se_unfold :=
  unfold coordinate, random, randint, gauss;
  unfold mbind, SE_bind, mret, SE_ret, raise; cbn beta.

(** One draw from the random source, with what the contract says of it. *)
Ltac se_draw :=
  match goal with
  | |- context [random_random ?s] =>
      is_var s;
      let r := fresh "r" in let s' := fresh "s" in let E := fresh "Er" in
      let k := fresh "k" in let Hk := fresh "Hk" in let Hr := fresh "Hr" in
      destruct (random_random_unit s) as (k & Hk & Hr);
      destruct (random_random s) as [r s'] eqn:E; cbn [fst] in Hr; subst r;
      cbn beta iota
  | |- context [random_randint ?a ?b ?s] =>
      is_var s;
      let r := fresh "b" in let s' := fresh "s" in let E := fresh "Eb" in
      let Hb := fresh "Hb" in
      assert (Hb := random_randint_range a b s ltac:(lia));
      destruct (random_randint a b s) as [r s'] eqn:E; cbn [fst] in Hb;
      cbn beta iota
  | |- context [random_gauss ?a ?b ?s] =>
      is_var s;
      let r := fresh "g" in let s' := fresh "s" in let E := fresh "Eg" in
      destruct (random_gauss a b s) as [r s'] eqn:E; cbn beta iota
  end.

(** What every turn of the classification loop establishes. *)
Definition clf_invariant (strategy : string) (l : clf_locals) : Prop :=
  (label l = 0 \/ label l = 1) /\
  Forall (fun v => between (-1) 1 v /\ rounded_to 2 v) (x l) /\
  (strategy = "halfs" ->
   exists x0 x1, x l = [x0; x1] /\
     (label l = 0 -> between (-1) 0 x0) /\ (label l = 1 -> between 0 1 x0)).

Section GeneratorFacts.

Context {R : RandomSource} {P : FloatPow}.

Lemma Z2F_2 : (Z2F 2 == inject_Z 2)%Q.
Proof. vm_compute. reflexivity. Qed.

(** A square as [pow] returns it, against the exact square. *)
Lemma fpow2_bounds a :
  ((1 - pow2 (-52)) * (a * a) <= fpow a 2 /\
   fpow a 2 <= (1 + pow2 (-52)) * (a * a))%Q.
Proof.
  unfold fpow.
  assert (L := float_pow_accurate a (Z2F 2) 2 ltac:(left; reflexivity) Z2F_2).
  assert (Hsq : (0 <= a ^ 2)%Q) by apply Qsqr_nonneg.
  rewrite (Qabs_pos (a ^ 2)) in L by exact Hsq.
  apply Qabs_Qle_condition in L. destruct L as [L1 L2].
  change (a ^ 2)%Q with (a * a)%Q in *.
  set (p := float_pow a (Z2F 2)) in *. clearbody p.
  set (X := (a * a)%Q) in *. clearbody X.
  rewrite pow2_m52 in *. split; lra.
Qed.

Lemma fpow2_nonneg a : (0 <= fpow a 2)%Q.
Proof.
  destruct (fpow2_bounds a) as [H _].
  assert (Hsq : (0 <= a * a)%Q) by (change (0 <= a ^ 2)%Q; apply Qsqr_nonneg).
  rewrite pow2_m52 in H.
  set (X := (a * a)%Q) in *. clearbody X. lra.
Qed.

Lemma math_sqrt_squares {S} (a b : float) (s : S) :
  math_sqrt (fadd (fpow a 2) (fpow b 2)) s
  = (inr (fsqrt (fadd (fpow a 2) (fpow b 2))), s).
Proof.
  assert (Ha := fpow2_nonneg a). assert (Hb := fpow2_nonneg b).
  assert (H : (0 <= fadd (fpow a 2) (fpow b 2))%Q) by (apply RN_nonneg; lra).
  unfold math_sqrt, fltb.
  apply Qle_bool_iff in H. rewrite H. reflexivity.
Qed.

Lemma lit_half : lit 0.5 = (1 # 2)%Q.
Proof. vm_compute. reflexivity. Qed.

Lemma pow2_m50 : pow2 (-50) = (1 # 1125899906842624)%Q.
Proof. vm_compute. reflexivity. Qed.

(** The test of [circle], [math.sqrt(x0**2 + x1**2) < 0.5], away from the
    circle: whatever [pow] returns within its accuracy, the test holds
    for a point whose exact squared distance is below 1/4 by the factor
    [1 - 2^-50], and fails for one above 1/4 by the factor [1 + 2^-50]. *)
Lemma circle_test_inside (x0 x1 : float) :
  (x0 * x0 + x1 * x1 <= (1 # 4) * (1 - pow2 (-50)))%Q ->
  fltb (fsqrt (fadd (fpow x0 2) (fpow x1 2))) (lit 0.5) = true.
Proof.
  intros Hin.
  destruct (fpow2_bounds x0) as [_ U0]. destruct (fpow2_bounds x1) as [_ U1].
  assert (N0 : (0 <= x0 * x0)%Q) by (change (0 <= x0 ^ 2)%Q; apply Qsqr_nonneg).
  assert (N1 : (0 <= x1 * x1)%Q) by (change (0 <= x1 ^ 2)%Q; apply Qsqr_nonneg).
  set (a := fpow x0 2) in *. set (b := fpow x1 2) in *. clearbody a b.
  set (X0 := (x0 * x0)%Q) in *. set (X1 := (x1 * x1)%Q) in *. clearbody X0 X1.
  assert (Hs : (a + b <= (1 # 4) - pow2 (-53))%Q).
  { rewrite pow2_m52 in *. rewrite pow2_m50 in Hin. rewrite pow2_m53. lra. }
  assert (Hc : (fadd a b <= (1 # 4) - pow2 (-53))%Q).
  { unfold fadd. apply RN_monotone in Hs.
    assert (E : (RN ((1 # 4) - pow2 (-53)) == (1 # 4) - pow2 (-53))%Q).
    { apply (RN_exact_eq (2 ^ 53 - 4) (-55)); [lia|]. vm_compute. reflexivity. }
    rewrite E in Hs. exact Hs. }
  apply fsqrt_lt_half in Hc. rewrite lit_half. unfold fltb.
  destruct (Qle_bool (1 # 2) _) eqn:E; [|reflexivity].
  apply Qle_bool_iff in E. exfalso. lra.
Qed.

Lemma circle_test_outside (x0 x1 : float) :
  ((1 # 4) * (1 + pow2 (-50)) <= x0 * x0 + x1 * x1)%Q ->
  fltb (fsqrt (fadd (fpow x0 2) (fpow x1 2))) (lit 0.5) = false.
Proof.
  intros Hout.
  destruct (fpow2_bounds x0) as [L0 _]. destruct (fpow2_bounds x1) as [L1 _].
  assert (N0 : (0 <= x0 * x0)%Q) by (change (0 <= x0 ^ 2)%Q; apply Qsqr_nonneg).
  assert (N1 : (0 <= x1 * x1)%Q) by (change (0 <= x1 ^ 2)%Q; apply Qsqr_nonneg).
  set (a := fpow x0 2) in *. set (b := fpow x1 2) in *. clearbody a b.
  set (X0 := (x0 * x0)%Q) in *. set (X1 := (x1 * x1)%Q) in *. clearbody X0 X1.
  assert (Hs : (1 # 4 <= a + b)%Q).
  { rewrite pow2_m52 in *. rewrite pow2_m50 in Hout. lra. }
  assert (Hc : (1 # 4 <= fadd a b)%Q).
  { unfold fadd. apply RN_monotone in Hs.
    assert (E : (RN (1 # 4) == 1 # 4)%Q).
    { apply (RN_exact_eq 1 (-2)); [lia|]. vm_compute. reflexivity. }
    rewrite E in Hs. exact Hs. }
  apply fsqrt_ge_half in Hc. rewrite lit_half. unfold fltb.
  apply Qle_bool_iff in Hc. rewrite Hc. reflexivity.
Qed.

(** One turn of the loop with [circle]: the two draws, the label off the
    point as drawn, the rounded point. *)
Lemma circle_iteration (fr : option clf_locals) (s : rng) :
  let d0 := random_random s in
  let d1 := random_random d0.2 in
  let x0 := fsub (fmul 2 d0.1) 1 in
  let x1 := fsub (fmul 2 d1.1) 1 in
  exists lab : Z,
    clf_iteration "circle" fr s
    = (inr {| label := lab;
              x := [Float (round_float x0 2); Float (round_float x1 2)] |}, d1.2) /\
    (lab = 0 \/ lab = 1) /\
    ((x0 * x0 + x1 * x1 <= (1 # 4) * (1 - pow2 (-50)))%Q -> lab = 1) /\
    (((1 # 4) * (1 + pow2 (-50)) <= x0 * x0 + x1 * x1)%Q -> lab = 0).
Proof.
  intros d0 d1 x0 x1.
  unfold clf_iteration. cbn [String.eqb Ascii.eqb Bool.eqb].
  se_unfold. subst x0 x1 d1 d0.
  destruct (random_random s) as [r0 s1]. cbn [fst snd].
  destruct (random_random s1) as [r1 s2]. cbn [fst snd].
  rewrite math_sqrt_squares. cbn [fst snd fmap list_fmap py_round].
  set (x0 := fsub (fmul 2 r0) 1). set (x1 := fsub (fmul 2 r1) 1).
  clearbody x0 x1.
  destruct (fltb (fsqrt (fadd (fpow x0 2) (fpow x1 2))) (lit 0.5)) eqn:E.
  - exists 1. split; [reflexivity|]. split; [right; reflexivity|].
    split; [reflexivity|]. intros H. apply circle_test_outside in H. congruence.
  - exists 0. split; [reflexivity|]. split; [left; reflexivity|].
    split; [|reflexivity]. intros H. apply circle_test_inside in H. congruence.
Qed.

Lemma supported_clf_cases st :
  supported Classification st = true ->
  st = "halfs" \/ st = "quarters" \/ st = "diagonal" \/ st = "circle" \/
  st = "ellipse" \/ st = "circles" \/ st = "shifteddiagonal" \/ st = "bernoulli".
Proof.
  unfold supported. cbn [strategies clf_strategies existsb].
  rewrite !orb_true_iff, !String.eqb_eq. intuition discriminate.
Qed.

Lemma supported_reg_cases st :
  supported Regression st = true ->
  st = "linear" \/ st = "twodimlinear" \/ st = "multidimlinear" \/
  st = "quadratic" \/ st = "twodimquadratic" \/ st = "cubic" \/ st = "twodimcubic".
Proof.
  unfold supported. cbn [strategies reg_strategies existsb].
  rewrite !orb_true_iff, !String.eqb_eq. intuition discriminate.
Qed.

Lemma rounded_coordinate k :
  0 <= k < 2 ^ 53 ->
  between (-1) 1 (Float (round_float (dyadic (k - 2 ^ 52) (-52)) 2)) /\
  rounded_to 2 (Float (round_float (dyadic (k - 2 ^ 52) (-52)) 2)).
Proof.
  intros Hk. destruct (coordinate_range k Hk) as [H1 H2]. split.
  - split; cbn [number].
    + apply round_float_ge_m1; [lia|exact H1].
    + apply round_float_le_1; [lia|exact H2].
  - eexists. reflexivity.
Qed.

Lemma rounded_neg_draw k :
  0 <= k < 2 ^ 53 ->
  between (-1) 0 (Float (round_float (fneg (dyadic k (-53))) 2)) /\
  rounded_to 2 (Float (round_float (fneg (dyadic k (-53))) 2)).
Proof.
  intros Hk. destruct (fneg_unit_draw_range k Hk) as [H1 H2]. split.
  - split; cbn [number].
    + apply round_float_ge_m1; [lia|exact H1].
    + apply round_float_nonpos; exact H2.
  - eexists. reflexivity.
Qed.

Lemma rounded_draw k :
  0 <= k < 2 ^ 53 ->
  between 0 1 (Float (round_float (dyadic k (-53)) 2)) /\
  rounded_to 2 (Float (round_float (dyadic k (-53)) 2)).
Proof.
  intros Hk. destruct (unit_draw_range k Hk) as [H1 H2]. split.
  - split; cbn [number].
    + apply round_float_nonneg; exact H1.
    + apply round_float_le_1; [lia|exact H2].
  - eexists. reflexivity.
Qed.

Lemma between_bit z : 0 <= z <= 1 -> between (-1) 1 (Int z).
Proof.
  intros Hz. unfold between. cbn [number].
  unfold Qle, inject_Z. cbn [Qnum Qden]. lia.
Qed.

Lemma between_weaken lo hi lo' hi' v :
  (lo' <= lo)%Q -> (hi <= hi')%Q -> between lo hi v -> between lo' hi' v.
Proof. unfold between. intros H1 H2 [H3 H4]. split; lra. Qed.

Ltac two_coordinates :=
  cbn [fst yields]; unfold clf_invariant; cbn [label x fmap list_fmap py_round];
  split;
  [lia
  |split;
   [constructor; [|constructor; [|constructor]]; apply rounded_coordinate; assumption
   |intros H; discriminate H]].

Lemma clf_iteration_invariant st fr s :
  supported Classification st = true ->
  yields (clf_invariant st) (clf_iteration st fr s).1.
Proof.
  intros Hs. apply supported_clf_cases in Hs.
  destruct Hs as [->|[->|[->|[->|[->|[->|[->| ->]]]]]]];
    unfold clf_iteration; cbn [String.eqb Ascii.eqb Bool.eqb];
    se_unfold; repeat se_draw;
    repeat (rewrite math_sqrt_squares; cbn beta iota);
    rewrite ?coordinate_value by assumption.
  1: { (* halfs *)
    destruct (Z.eqb_spec b 0) as [->|Hb0]; se_draw; se_draw;
      rewrite ?coordinate_value by assumption;
      cbn [fst yields]; unfold clf_invariant; cbn [label x fmap list_fmap py_round].
    + split; [lia|]. split.
      * constructor; [|constructor; [|constructor]].
        -- destruct (rounded_neg_draw k Hk) as [B D]. split; [|exact D].
           eapply between_weaken; [| |exact B]; lra.
        -- apply rounded_coordinate; assumption.
      * intros _. do 2 eexists. split; [reflexivity|]. split; [|lia].
        intros _. apply rounded_neg_draw; assumption.
    + split; [lia|]. split.
      * constructor; [|constructor; [|constructor]].
        -- destruct (rounded_draw k Hk) as [B D]. split; [|exact D].
           eapply between_weaken; [| |exact B]; lra.
        -- apply rounded_coordinate; assumption.
      * intros _. do 2 eexists. split; [reflexivity|]. split; [lia|].
        intros _. apply rounded_draw; assumption. }
  all: repeat (first [ rewrite math_sqrt_squares
                      | match goal with
                        | |- context [if fltb ?a ?b then _ else _] =>
                            destruct (fltb a b)
                        end ]; cbn beta iota).
  all: try (two_coordinates; fail).
  (* bernoulli *)
  cbn [randint_list]. se_unfold. repeat se_draw.
  cbn [fst yields]. unfold clf_invariant. cbn [label x fmap list_fmap py_round].
  split; [destruct (_ <? _); lia|].
  split; [|intros H; discriminate H].
  repeat (apply List.Forall_cons;
          [split; [apply between_bit; lia | exact I]|]).
  apply List.Forall_nil.
Qed.

Lemma clf_iteration_unsupported st fr s :
  supported Classification st = false ->
  clf_iteration st fr s
  = (inl (NotImplementedError "this shape is not implemented for clf"), s).
Proof.
  unfold supported. cbn [strategies clf_strategies existsb].
  rewrite !orb_false_iff. intros (H1 & H2 & H3 & H4 & H5 & H6 & H7 & H8 & _).
  unfold clf_iteration. rewrite H1, H2, H3, H4, H5, H6, H7, H8. reflexivity.
Qed.

(** What every turn of the regression loop establishes. *)
Definition reg_invariant (l : reg_locals) : Prop :=
  Forall (rounded_to 3) (reg_x l) /\ rounded_to 3 (reg_y l).

Lemma reg_iteration_invariant st fr s :
  supported Regression st = true ->
  yields reg_invariant (reg_iteration st fr s).1.
Proof.
  intros Hs. apply supported_reg_cases in Hs.
  destruct Hs as [->|[->|[->|[->|[->|[->| ->]]]]]];
    unfold reg_iteration; cbn [String.eqb Ascii.eqb Bool.eqb];
    se_unfold; repeat se_draw;
    cbn [fst yields]; unfold reg_invariant;
    cbn [reg_x reg_y fmap list_fmap py_round];
    (split; [|eexists; reflexivity]);
    repeat (apply List.Forall_cons; [eexists; reflexivity|]);
    apply List.Forall_nil.
Qed.

Lemma reg_iteration_unsupported st fr s :
  supported Regression st = false ->
  reg_iteration st fr s
  = (inl (NotImplementedError "this shape is not implemented for reg"), s).
Proof.
  unfold supported. cbn [strategies reg_strategies existsb].
  rewrite !orb_false_iff. intros (H1 & H2 & H3 & H4 & H5 & H6 & H7 & _).
  unfold reg_iteration. rewrite H1, H2, H3, H4, H5, H6, H7. reflexivity.
Qed.

(** A turn of either loop yields on a supported strategy. *)
Lemma clf_iteration_yields st fr s :
  supported Classification st = true ->
  exists l, clf_iteration st fr s = (inr l, (clf_iteration st fr s).2).
Proof.
  intros Hs. assert (H := clf_iteration_invariant st fr s Hs).
  destruct (clf_iteration st fr s) as [[e|l] s']; [destruct H|].
  exists l. reflexivity.
Qed.

Lemma reg_iteration_yields st fr s :
  supported Regression st = true ->
  exists l, reg_iteration st fr s = (inr l, (reg_iteration st fr s).2).
Proof.
  intros Hs. assert (H := reg_iteration_invariant st fr s Hs).
  destruct (reg_iteration st fr s) as [[e|l] s']; [destruct H|].
  exists l. reflexivity.
Qed.

(** [next] on a generator that is not closed runs one turn of its loop,
    whatever its local variables hold. *)
Lemma next_clf g s :
  clf_status g <> GEN_CLOSED ->
  next (Clf g) s
  = match clf_iteration (clf_strategy g) None s with
    | (inl e, s') =>
        (inl e, Clf {| clf_strategy := clf_strategy g; clf_status := GEN_CLOSED;
                       clf_frame := None |}, s')
    | (inr l, s') =>
        (inr (x l, Int (label l)),
         Clf {| clf_strategy := clf_strategy g; clf_status := GEN_SUSPENDED;
                clf_frame := Some l |}, s')
    end.
Proof.
  intros Hg. unfold next, clf_next.
  change (clf_iteration (clf_strategy g) (clf_frame g) s)
    with (clf_iteration (clf_strategy g) None s).
  destruct (clf_status g); [| |congruence];
    destruct (clf_iteration (clf_strategy g) None s) as [[e|l] s']; reflexivity.
Qed.

Lemma next_reg g s :
  reg_status g <> GEN_CLOSED ->
  next (Reg g) s
  = match reg_iteration (reg_strategy g) None s with
    | (inl e, s') =>
        (inl e, Reg {| reg_strategy := reg_strategy g; reg_status := GEN_CLOSED;
                       reg_frame := None |}, s')
    | (inr l, s') =>
        (inr (reg_x l, reg_y l),
         Reg {| reg_strategy := reg_strategy g; reg_status := GEN_SUSPENDED;
                reg_frame := Some l |}, s')
    end.
Proof.
  intros Hg. unfold next, reg_next.
  change (reg_iteration (reg_strategy g) (reg_frame g) s)
    with (reg_iteration (reg_strategy g) None s).
  destruct (reg_status g); [| |congruence];
    destruct (reg_iteration (reg_strategy g) None s) as [[e|l] s']; reflexivity.
Qed.

(** A pull from a kept generator and a pull from a new one give the same
    result and leave the same random source. *)
Lemma next_as_pull g s :
  status_of g <> GEN_CLOSED ->
  ((next g s).1.1, (next g s).2) = pull (task_of g) (strategy_of g) s.
Proof.
  intros Hg. unfold pull. destruct g as [g|g]; cbn [task_of strategy_of status_of generate] in *.
  - rewrite (next_clf g s Hg).
    rewrite (next_clf (generate_clf_point (clf_strategy g)) s) by discriminate.
    cbn [generate_clf_point clf_strategy].
    destruct (clf_iteration (clf_strategy g) None s) as [[e|l] s']; reflexivity.
  - rewrite (next_reg g s Hg).
    rewrite (next_reg (generate_reg_point (reg_strategy g)) s) by discriminate.
    cbn [generate_reg_point reg_strategy].
    destruct (reg_iteration (reg_strategy g) None s) as [[e|l] s']; reflexivity.
Qed.

Lemma next_stays_open g s :
  status_of g <> GEN_CLOSED ->
  task_of (next g s).1.2 = task_of g /\
  strategy_of (next g s).1.2 = strategy_of g /\
  (yields (fun _ => True) (next g s).1.1 -> status_of (next g s).1.2 <> GEN_CLOSED).
Proof.
  intros Hg. destruct g as [g|g]; cbn [status_of] in Hg.
  - rewrite (next_clf g s Hg).
    destruct (clf_iteration (clf_strategy g) None s) as [[e|l] s'];
      cbn; repeat split; try discriminate; tauto.
  - rewrite (next_reg g s Hg).
    destruct (reg_iteration (reg_strategy g) None s) as [[e|l] s'];
      cbn; repeat split; try discriminate; tauto.
Qed.

Lemma pull_clf st s :
  pull Classification st s
  = match clf_iteration st None s with
    | (inl e, s') => (inl e, s')
    | (inr l, s') => (inr (x l, Int (label l)), s')
    end.
Proof.
  unfold pull. cbn [generate]. rewrite next_clf by discriminate.
  cbn [generate_clf_point clf_strategy].
  destruct (clf_iteration st None s) as [[e|l] s']; reflexivity.
Qed.

Lemma pull_reg st s :
  pull Regression st s
  = match reg_iteration st None s with
    | (inl e, s') => (inl e, s')
    | (inr l, s') => (inr (reg_x l, reg_y l), s')
    end.
Proof.
  unfold pull. cbn [generate]. rewrite next_reg by discriminate.
  cbn [generate_reg_point reg_strategy].
  destruct (reg_iteration st None s) as [[e|l] s']; reflexivity.
Qed.

Lemma pull_supported t st s :
  supported t st = true -> exists smp, pull t st s = (inr smp, (pull t st s).2).
Proof.
  intros Hs. destruct t.
  - rewrite pull_clf. destruct (clf_iteration_yields st None s Hs) as [l ->].
    eexists. reflexivity.
  - rewrite pull_reg. destruct (reg_iteration_yields st None s Hs) as [l ->].
    eexists. reflexivity.
Qed.

Definition message (t : task) : string :=
  match t with
  | Classification => "this shape is not implemented for clf"
  | Regression => "this shape is not implemented for reg"
  end.

Lemma pull_unsupported t st s :
  supported t st = false -> pull t st s = (inl (NotImplementedError (message t)), s).
Proof.
  intros Hs. destruct t.
  - rewrite pull_clf, clf_iteration_unsupported by assumption. reflexivity.
  - rewrite pull_reg, reg_iteration_unsupported by assumption. reflexivity.
Qed.

Lemma resume_as_pulls n : forall g s,
  status_of g <> GEN_CLOSED ->
  resume n g s = pulls (task_of g) (strategy_of g) n s.
Proof.
  induction n as [|n IH]; intros g s Hg; [reflexivity|].
  cbn [resume pulls].
  assert (E := next_as_pull g s Hg).
  destruct (next_stays_open g s Hg) as (Ht & Hst & Hopen).
  destruct (next g s) as [[r g'] s']. cbn [fst snd] in *.
  rewrite <- E. destruct r as [e|smp]; [reflexivity|].
  rewrite (IH g' s') by (apply Hopen; exact I).
  rewrite Ht, Hst. reflexivity.
Qed.

End GeneratorFacts.

(** ** Facts about the script *)

Section ScriptFacts.

Context {R : RandomSource} {P : FloatPow}.

(** One turn of the loop over [range(nInstances)]: a pull, and a row at
    the end of the file. *)
Definition writes_row (t : task) (st filename : string) (body : Z -> SE world unit)
  : Prop :=
  forall i w, exists smp,
    pull t st (w_rng w) = (inr smp, (pull t st (w_rng w)).2) /\
    body i w
    = (inr (),
       {| w_rng := (pull t st (w_rng w)).2;
          w_files := alter (fun c => c ++ [Row i smp.1 smp.2]) filename (w_files w);
          w_stdout := w_stdout w |}).

Lemma for_each_rows t st filename body :
  writes_row t st filename body ->
  forall n i w c,
    w_files w !! filename = Some c ->
    for_each (seqZ i (Z.of_nat n)) body w
    = (inr (),
       {| w_rng := (pulls t st n (w_rng w)).2;
          w_files := <[filename := c ++ rows i (pulls t st n (w_rng w)).1]> (w_files w);
          w_stdout := w_stdout w |}).
Proof.
  intros Hbody. induction n as [|n IH]; intros i w c Hc.
  - cbn. rewrite app_nil_r, insert_id by exact Hc. destruct w; reflexivity.
  - rewrite seqZ_cons by lia.
    replace (Z.pred (Z.of_nat (S n))) with (Z.of_nat n) by lia.
    cbn [for_each pulls]. unfold mbind at 1, SE_bind at 1.
    destruct (Hbody i w) as (smp & Hp & ->). rewrite Hp.
    set (s' := (pull t st (w_rng w)).2) in *. clearbody s'.
    erewrite IH; cycle 1.
    { cbn [w_files]. rewrite lookup_alter_eq, Hc. reflexivity. }
    cbn [w_rng w_files w_stdout].
    destruct (pulls t st n s') as [l s''] eqn:El. cbn [fst snd].
    destruct smp as [fx fy]. cbn [rows fst snd].
    replace (Z.succ i) with (i + 1) by lia.
    rewrite ?El. cbn [fst snd].
    f_equal; f_equal; try reflexivity.
    rewrite <- app_assoc. cbn [app].
    apply map_eq. intros p. destruct (decide (filename = p)) as [<-|Hne].
    + rewrite !lookup_insert_eq. reflexivity.
    + rewrite !lookup_insert_ne, lookup_alter_ne by assumption. reflexivity.
Qed.

Lemma next_generate_clf_point_supported st w :
  supported Classification st = true ->
  exists l,
    pull Classification st (w_rng w)
    = (inr (x l, Int (label l)), (pull Classification st (w_rng w)).2) /\
    next_generate_clf_point st w
    = (inr (x l, label l),
       {| w_rng := (pull Classification st (w_rng w)).2;
          w_files := w_files w; w_stdout := w_stdout w |}).
Proof.
  intros Hs. rewrite pull_clf. unfold next_generate_clf_point, clf_next.
  cbn [generate_clf_point clf_status clf_strategy clf_frame].
  destruct (clf_iteration_yields st None (w_rng w) Hs) as [l ->].
  exists l. split; reflexivity.
Qed.

Lemma next_generate_reg_point_supported st w :
  supported Regression st = true ->
  exists l,
    pull Regression st (w_rng w)
    = (inr (reg_x l, reg_y l), (pull Regression st (w_rng w)).2) /\
    next_generate_reg_point st w
    = (inr (reg_x l, reg_y l),
       {| w_rng := (pull Regression st (w_rng w)).2;
          w_files := w_files w; w_stdout := w_stdout w |}).
Proof.
  intros Hs. rewrite pull_reg. unfold next_generate_reg_point, reg_next.
  cbn [generate_reg_point reg_status reg_strategy reg_frame].
  destruct (reg_iteration_yields st None (w_rng w) Hs) as [l ->].
  exists l. split; reflexivity.
Qed.

Lemma clf_writes_row st filename :
  supported Classification st = true ->
  writes_row Classification st filename (fun i =>
    '(x, label) ← next_generate_clf_point st;
    print_to filename (Row i x (Int label))).
Proof.
  intros Hs i w.
  destruct (next_generate_clf_point_supported st w Hs) as (l & Hp & Hn).
  eexists. split; [exact Hp|].
  unfold mbind, SE_bind. rewrite Hn. reflexivity.
Qed.

Lemma reg_writes_row st filename :
  supported Regression st = true ->
  writes_row Regression st filename (fun i =>
    '(x, y) ← next_generate_reg_point st;
    print_to filename (Row i x y)).
Proof.
  intros Hs i w.
  destruct (next_generate_reg_point_supported st w Hs) as (l & Hp & Hn).
  eexists. split; [exact Hp|].
  unfold mbind, SE_bind. rewrite Hn. reflexivity.
Qed.

(** The world after one split: one sample shown as the example, then
    [nInstances] samples written under the header. *)
Definition split_result (t : task) (dirname st command : string) (w : world) : world :=
  let shown := pulls t st 1 (w_rng w) in
  let written := pulls t st (Z.to_nat nInstances) shown.2 in
  {| w_rng := written.2;
     w_files :=
       <[filename t dirname command := header t :: rows 0 written.1]> (w_files w);
     w_stdout :=
       w_stdout w
       ++ [Text ("Creating data in " +:+ filename t dirname command);
           Text ("Shape: " +:+ st)]
       ++ ((fun smp : sample => Example smp.1 smp.2) <$> shown.1) |}.

Lemma clf_split_spec dirname st command w :
  supported Classification st = true ->
  clf_split dirname st command w
  = (inr (), split_result Classification dirname st command w).
Proof.
  intros Hs. unfold clf_split, split_result.
  unfold mbind at 1 2 3 4 5 6, SE_bind at 1 2 3 4 5 6. cbn [print].
  cbn [w_rng w_files w_stdout].
  set (w1 := Build_world _ _ _).
  destruct (next_generate_clf_point_supported st w1 Hs) as (l & Hp & ->).
  subst w1. cbn [w_rng w_files w_stdout print open_w print_to] in *.
  cbn [pulls]. rewrite Hp.
  set (s1 := (pull Classification st (w_rng w)).2) in *. clearbody s1.
  cbn [fst snd].
  unfold range, nInstances.
  change 1000 with (Z.of_nat 1000).
  erewrite (for_each_rows Classification st _ _ (clf_writes_row st _ Hs)); cycle 1.
  { cbn [w_files]. rewrite lookup_alter_eq, lookup_insert_eq. reflexivity. }
  cbn [w_rng w_files w_stdout filename header fmap list_fmap fst snd].
  rewrite Nat2Z.id.
  f_equal. f_equal.
  - apply map_eq. intros p.
    destruct (decide (clf_filename dirname command = p)) as [<-|Hne].
    + rewrite !lookup_insert_eq. reflexivity.
    + rewrite !lookup_insert_ne, lookup_alter_ne, lookup_insert_ne by assumption.
      reflexivity.
  - rewrite <- !app_assoc. reflexivity.
Qed.

Lemma reg_split_spec dirname st command w :
  supported Regression st = true ->
  reg_split dirname st command w
  = (inr (), split_result Regression dirname st command w).
Proof.
  intros Hs. unfold reg_split, split_result.
  unfold mbind at 1 2 3 4 5 6, SE_bind at 1 2 3 4 5 6. cbn [print].
  cbn [w_rng w_files w_stdout].
  set (w1 := Build_world _ _ _).
  destruct (next_generate_reg_point_supported st w1 Hs) as (l & Hp & ->).
  subst w1. cbn [w_rng w_files w_stdout print open_w print_to] in *.
  cbn [pulls]. rewrite Hp.
  set (s1 := (pull Regression st (w_rng w)).2) in *. clearbody s1.
  cbn [fst snd].
  unfold range, nInstances.
  change 1000 with (Z.of_nat 1000).
  erewrite (for_each_rows Regression st _ _ (reg_writes_row st _ Hs)); cycle 1.
  { cbn [w_files]. rewrite lookup_alter_eq, lookup_insert_eq. reflexivity. }
  cbn [w_rng w_files w_stdout filename header fmap list_fmap fst snd].
  rewrite Nat2Z.id.
  f_equal. f_equal.
  - apply map_eq. intros p.
    destruct (decide (reg_filename dirname command = p)) as [<-|Hne].
    + rewrite !lookup_insert_eq. reflexivity.
    + rewrite !lookup_insert_ne, lookup_alter_ne, lookup_insert_ne by assumption.
      reflexivity.
  - rewrite <- !app_assoc. reflexivity.
Qed.

(** The world after [random.seed(1337)] and after the last [print]. *)
Definition seeded (w : world) : world :=
  {| w_rng := random_seed 1337; w_files := w_files w; w_stdout := w_stdout w |}.

Definition finished (w : world) : world :=
  {| w_rng := w_rng w; w_files := w_files w; w_stdout := w_stdout w ++ [Text "Done."] |}.

(** A run for one task with a supported strategy: seed, the train split,
    the test split, [Done.] *)
Lemma main_supported t dirname st w :
  supported t st = true ->
  main dirname (task_args t st) w
  = (inr (),
     finished (split_result t dirname st "test"
                 (split_result t dirname st "train" (seeded w)))).
Proof.
  intros Hs. unfold main. destruct t; cbn [task_args clf reg for_each].
  - unfold mbind, SE_bind. cbn [seed mret SE_ret].
    rewrite !clf_split_spec by assumption. reflexivity.
  - unfold mbind, SE_bind. cbn [seed mret SE_ret].
    rewrite !reg_split_spec by assumption. reflexivity.
Qed.

(** A run for one task with an unsupported strategy stops at the first
    pull, before any file is opened. *)
Lemma main_unsupported t dirname st w :
  supported t st = false ->
  main dirname (task_args t st) w
  = (inl (NotImplementedError (message t)),
     {| w_rng := random_seed 1337;
        w_files := w_files w;
        w_stdout :=
          w_stdout w
          ++ [Text ("Creating data in " +:+ filename t dirname "train");
              Text ("Shape: " +:+ st)] |}).
Proof.
  intros Hs. unfold main. destruct t; cbn [task_args clf reg for_each].
  - unfold clf_split. unfold mbind, SE_bind. cbn [seed mret SE_ret print].
    unfold next_generate_clf_point, clf_next.
    cbn [generate_clf_point clf_status clf_strategy clf_frame w_rng w_files w_stdout].
    rewrite clf_iteration_unsupported by assumption.
    rewrite <- app_assoc. reflexivity.
  - unfold reg_split. unfold mbind, SE_bind. cbn [seed mret SE_ret print].
    unfold next_generate_reg_point, reg_next.
    cbn [generate_reg_point reg_status reg_strategy reg_frame w_rng w_files w_stdout].
    rewrite reg_iteration_unsupported by assumption.
    rewrite <- app_assoc. reflexivity.
Qed.

Lemma filename_command_inj t dirname c1 c2 :
  filename t dirname c1 = filename t dirname c2 -> c1 = c2.
Proof.
  assert (Hjoin : forall a p b1 b2,
             String.prefix "/" (p +:+ b1 +:+ ".csv") = false ->
             String.prefix "/" (p +:+ b2 +:+ ".csv") = false ->
             os_path_join a (p +:+ b1 +:+ ".csv") = os_path_join a (p +:+ b2 +:+ ".csv") ->
             p +:+ b1 +:+ ".csv" = p +:+ b2 +:+ ".csv").
  { intros a p b1 b2 H1 H2. unfold os_path_join. rewrite H1, H2.
    destruct (_ || _); intros E.
    - apply String.app_inj in E. exact E.
    - apply String.app_inj in E. apply (String.app_inj "/") in E. exact E. }
  assert (Hcsv : forall b1 b2, b1 +:+ ".csv" = b2 +:+ ".csv" -> b1 = b2).
  { induction b1 as [|a1 b1 IH]; intros [|a2 b2] E; cbn in E.
    - reflexivity.
    - exfalso. injection E as Ea Eb. destruct b2 as [|? [|? [|? [|? ?]]]]; discriminate.
    - exfalso. injection E as Ea Eb. destruct b1 as [|? [|? [|? [|? ?]]]]; discriminate.
    - injection E as -> Eb. f_equal. apply IH, Eb. }
  intros E. destruct t; cbn [filename] in E; unfold clf_filename, reg_filename in E;
    apply Hjoin in E; try reflexivity;
    apply String.app_inj in E; apply Hcsv, E.
Qed.
End ScriptFacts.

(** ** A closed random source

    CPython's generator with a C library under which the deviates of
    [gauss] vanish, so that [gauss(mu, sigma)] returns [mu]: the setting
    "noise set to 0".  Classification never calls [gauss]. *)
Definition libm_flat : Libm :=
  {| libm_cos := fun _ => 0%Q; libm_sin := fun _ => 0%Q; libm_log := fun _ => 0%Q |}.

Definition cpython : RandomSource := mt19937 libm_flat.

(** A [pow] that rounds correctly: one of the functions [FloatPow]
    allows, for the closed statements. *)
Lemma RN_power_accurate (x y : float) (n : Z) :
  n = 2 \/ n = 3 -> (y == inject_Z n)%Q ->
  (Qabs (RN (x ^ Qfloor y) - x ^ n) <= pow2 (-52) * Qabs (x ^ n))%Q.
Proof.
  intros _ Hy.
  assert (E : Qfloor y = n) by (rewrite Hy; apply Qfloor_Z).
  rewrite E.
  assert (H := RN_error (x ^ n)).
  assert (Ha := Qabs_nonneg (x ^ n)).
  rewrite pow2_m53 in H. rewrite pow2_m52.
  set (A := Qabs (x ^ n)) in *. clearbody A.
  set (D := Qabs (RN (x ^ n) - x ^ n)) in *. clearbody D.
  lra.
Qed.

Definition pow_nearest : FloatPow :=
  {| float_pow := fun x y => RN (x ^ Qfloor y);
     float_pow_accurate := RN_power_accurate |}.

(** ** The properties of the generators *)

Section GeneratorClaims.

Context {R : RandomSource} {P : FloatPow}.

(** C8: for every supported classification strategy, every sample that the
    classification generator yields, on its first pull or on a later one,
    carries the label 0 or the label 1. *)
Theorem labels_are_binary (g : generator) (s : rng) :
  task_of g = Classification ->
  supported Classification (strategy_of g) = true ->
  status_of g <> GEN_CLOSED ->
  yields (fun smp : sample => smp.2 = Int 0 \/ smp.2 = Int 1) (next g s).1.1.
Proof.
  intros Ht Hs Hg. destruct g as [g|g]; [|discriminate Ht].
  cbn [strategy_of status_of] in *. rewrite next_clf by assumption.
  assert (H := clf_iteration_invariant (clf_strategy g) None s Hs).
  destruct (clf_iteration (clf_strategy g) None s) as [[e|l] s']; [destruct H|].
  destruct H as ([H|H] & _); cbn; rewrite H; auto.
Qed.

(** C9: every feature the classification generator yields lies in [-1, 1]
    and is a float rounded to 2 decimals (or an int); with [halfs] the
    first feature lies in [-1, 0] under label 0 and in [0, 1] under label
    1; every feature and the target the regression generator yields are
    floats rounded to 3 decimals. *)
Theorem features_are_bounded_and_rounded (g : generator) (s : rng) :
  supported (task_of g) (strategy_of g) = true ->
  status_of g <> GEN_CLOSED ->
  yields (fun smp : sample =>
            match task_of g with
            | Classification =>
                Forall (fun v => between (-1) 1 v /\ rounded_to 2 v) smp.1 /\
                (strategy_of g = "halfs" ->
                 exists x0 x1, smp.1 = [x0; x1] /\
                   (smp.2 = Int 0 -> between (-1) 0 x0) /\
                   (smp.2 = Int 1 -> between 0 1 x0))
            | Regression =>
                Forall (rounded_to 3) smp.1 /\ rounded_to 3 smp.2
            end) (next g s).1.1.
Proof.
  intros Hs Hg. destruct g as [g|g]; cbn [task_of strategy_of status_of] in *.
  - rewrite next_clf by assumption.
    assert (H := clf_iteration_invariant (clf_strategy g) None s Hs).
    destruct (clf_iteration (clf_strategy g) None s) as [[e|l] s']; [destruct H|].
    destruct H as (_ & HF & Hh). cbn [fst snd yields]. split; [exact HF|].
    intros E. destruct (Hh E) as (x0 & x1 & Ex & H0 & H1).
    exists x0, x1. split; [exact Ex|]. split; intros [= El]; auto.
  - rewrite next_reg by assumption.
    assert (H := reg_iteration_invariant (reg_strategy g) None s Hs).
    destruct (reg_iteration (reg_strategy g) None s) as [[e|l] s']; [destruct H|].
    exact H.
Qed.

(** C7: a sample of [bernoulli] has exactly 5 features, each the int 0 or
    the int 1, and its label is 1 exactly when their sum exceeds 2 (and 0
    otherwise). *)
Theorem bernoulli_majority (g : clf_generator) (s : rng) :
  clf_strategy g = "bernoulli" ->
  clf_status g <> GEN_CLOSED ->
  yields (fun smp : sample =>
            exists bits : list Z,
              smp.1 = Int <$> bits /\ length bits = 5%nat /\
              Forall (fun b => b = 0 \/ b = 1) bits /\
              (smp.2 = Int 1 <-> 2 < sum bits) /\
              (smp.2 = Int 0 <-> sum bits <= 2)) (next (Clf g) s).1.1.
Proof.
  intros Hst Hg. rewrite next_clf by assumption. rewrite Hst.
  unfold clf_iteration. cbn [String.eqb Ascii.eqb Bool.eqb randint_list].
  se_unfold. repeat se_draw. cbn [fst snd yields fmap list_fmap py_round].
  exists [b; b0; b1; b2; b3]. split; [reflexivity|]. split; [reflexivity|]. split.
  - repeat (apply List.Forall_cons; [lia|]). apply List.Forall_nil.
  - destruct (Z.ltb_spec 2 (sum [b; b0; b1; b2; b3])) as [Hlt|Hle]; split; split;
      intros E; first [reflexivity | assumption | discriminate E | lia].
Qed.

(** C6, amended: with [circle] the label is decided on the point as drawn,
    before its coordinates are rounded, by the floating-point test
    [math.sqrt(x0**2 + x1**2) < 0.5].  Whatever the C library's [pow]
    returns within its accuracy, the label is 1 when the exact squared
    distance [x0^2 + x1^2] of the drawn point is at most
    [0.25 * (1 - 2^-50)], and 0 when it is at least [0.25 * (1 + 2^-50)];
    in the band between the two (distances within about 5e-16 of 0.5) it
    is 0 or 1 as the rounding errors fall.  The sample carries
    [round(x0, 2)] and [round(x1, 2)]. *)
Theorem circle_label_of_drawn_point (g : clf_generator) (s : rng) :
  clf_strategy g = "circle" ->
  clf_status g <> GEN_CLOSED ->
  let d0 := random_random s in
  let d1 := random_random d0.2 in
  let x0 := fsub (fmul 2 d0.1) 1 in
  let x1 := fsub (fmul 2 d1.1) 1 in
  exists lab : Z,
    ((next (Clf g) s).1.1, (next (Clf g) s).2)
    = (inr ([Float (round_float x0 2); Float (round_float x1 2)], Int lab), d1.2) /\
    (lab = 0 \/ lab = 1) /\
    ((x0 * x0 + x1 * x1 <= (1 # 4) * (1 - pow2 (-50)))%Q -> lab = 1) /\
    (((1 # 4) * (1 + pow2 (-50)) <= x0 * x0 + x1 * x1)%Q -> lab = 0).
Proof.
  intros Hst Hg d0 d1 x0 x1. rewrite next_clf by assumption. rewrite Hst.
  destruct (circle_iteration None s) as (lab & E & Hlab & Hin & Hout).
  rewrite E. exists lab. cbn [fst snd x label].
  split; [reflexivity|]. split; [exact Hlab|]. split; assumption.
Qed.

(** C5, amended: with [linear] and a noise draw equal to 0, the target
    before rounding is exactly [2x - 1] for the coordinate [x] as drawn
    (itself exactly [2r - 1] for the draw [r] of [random()]); the sample
    carries [round(x, 3)] as its feature and [round(2x - 1, 3)] as its
    target. *)
Theorem linear_target_of_drawn_point (g : reg_generator) (s : rng) :
  reg_strategy g = "linear" ->
  reg_status g <> GEN_CLOSED ->
  (random_gauss 0 (lit 0.3) (random_random s).2).1 = 0%Q ->
  exists x y : float,
    (x == 2 * (random_random s).1 - 1)%Q /\
    (y == 2 * x - 1)%Q /\
    (next (Reg g) s).1.1 = inr ([Float (round_float x 3)], Float (round_float y 3)).
Proof.
  intros Hst Hg Hnoise. rewrite next_reg by assumption. rewrite Hst.
  unfold reg_iteration. cbn [String.eqb Ascii.eqb Bool.eqb].
  se_unfold.
  destruct (random_random_unit s) as (k & Hk & Hr).
  destruct (random_random s) as [r s1]. cbn [fst snd] in *. subst r.
  destruct (random_gauss 0 (lit 0.3) s1) as [noise s2]. cbn [fst] in Hnoise. subst noise.
  cbn [fst snd fmap list_fmap py_round].
  rewrite coordinate_value by assumption.
  assert (Ey : fadd (fsub (fmul 2 (dyadic (k - 2 ^ 52) (-52))) 1) 0
               = dyadic (k - 3 * 2 ^ 51) (-51)).
  { unfold fadd, fsub, fmul.
    assert (P51 : pow2 (-51) = (1 # 2251799813685248)%Q) by (vm_compute; reflexivity).
    rewrite (RN_dyadic (k - 2 ^ 52) (-51) (2 * dyadic (k - 2 ^ 52) (-52))); cycle 1.
    { lia. }
    { rewrite dyadic_eq, pow2_m52, P51.
      unfold Qeq, Qmult, inject_Z; cbn [Qnum Qden]; lia. }
    rewrite (RN_dyadic (k - 3 * 2 ^ 51) (-51) (dyadic (k - 2 ^ 52) (-51) - 1)); cycle 1.
    { lia. }
    { rewrite dyadic_eq, P51.
      unfold Qeq, Qmult, Qminus, Qplus, Qopp, inject_Z; cbn [Qnum Qden]; lia. }
    apply RN_dyadic; [lia|]. rewrite dyadic_eq. ring. }
  rewrite Ey.
  exists (dyadic (k - 2 ^ 52) (-52)), (dyadic (k - 3 * 2 ^ 51) (-51)).
  split; [|split; [|reflexivity]].
  - rewrite !dyadic_eq, pow2_m52, pow2_m53.
    unfold Qeq, Qmult, Qminus, Qplus, Qopp, inject_Z; cbn [Qnum Qden]; lia.
  - assert (P51 : pow2 (-51) = (1 # 2251799813685248)%Q) by (vm_compute; reflexivity).
    rewrite !dyadic_eq, pow2_m52, P51.
    unfold Qeq, Qmult, Qminus, Qplus, Qopp, inject_Z; cbn [Qnum Qden]; lia.
Qed.

Lemma pulls_length t st n : forall s,
  supported t st = true -> length (pulls t st n s).1 = n.
Proof.
  induction n as [|n IH]; intros s Hs; [reflexivity|].
  cbn [pulls]. destruct (pull_supported t st s Hs) as [smp ->].
  specialize (IH (pull t st s).2 Hs).
  destruct (pulls t st n (pull t st s).2) as [l s']. cbn in *. lia.
Qed.

Lemma pulls_add t st a b : forall s,
  supported t st = true ->
  pulls t st (a + b) s
  = ((pulls t st a s).1 ++ (pulls t st b (pulls t st a s).2).1,
     (pulls t st b (pulls t st a s).2).2).
Proof.
  induction a as [|a IH]; intros s Hs.
  - cbn. destruct (pulls t st b s); reflexivity.
  - cbn [Nat.add pulls]. destruct (pull_supported t st s Hs) as [smp ->].
    rewrite IH by assumption.
    destruct (pulls t st a (pull t st s).2) as [l s']. reflexivity.
Qed.

(** C10: a pull from a generator that was kept, whatever it yielded
    before, gives the sample and leaves the random source that a pull from
    a newly created generator of the same strategy gives and leaves; so
    [n] pulls from one generator and [n] pulls from [n] new generators are
    the same [n] samples and the same final random source. *)
Theorem new_generator_per_pull (t : task) (st : string) (n : nat) (s : rng) :
  supported t st = true ->
  (forall g, task_of g = t -> strategy_of g = st -> status_of g <> GEN_CLOSED ->
             ((next g s).1.1, (next g s).2) = pull t st s) /\
  resume n (generate t st) s = pulls t st n s /\
  length (pulls t st n s).1 = n.
Proof.
  intros Hs. split; [|split].
  - intros g <- <- Hg. apply next_as_pull, Hg.
  - rewrite resume_as_pulls by (destruct t; discriminate).
    destruct t; reflexivity.
  - apply pulls_length, Hs.
Qed.

End GeneratorClaims.

(** ** The properties of the script *)

Section ScriptClaims.

Context {R : RandomSource} {P : FloatPow}.

Lemma final_files t dirname st w :
  let w' := finished (split_result t dirname st "test"
                        (split_result t dirname st "train" (seeded w))) in
  let shown1 := pulls t st 1 (random_seed 1337) in
  let train := pulls t st 1000 shown1.2 in
  let shown2 := pulls t st 1 train.2 in
  let test := pulls t st 1000 shown2.2 in
  w_rng w' = test.2 /\
  w_files w' !! filename t dirname "train" = Some (header t :: rows 0 train.1) /\
  w_files w' !! filename t dirname "test" = Some (header t :: rows 0 test.1) /\
  w_stdout w'
  = w_stdout w
    ++ [Text ("Creating data in " +:+ filename t dirname "train");
        Text ("Shape: " +:+ st)]
    ++ ((fun smp : sample => Example smp.1 smp.2) <$> shown1.1)
    ++ [Text ("Creating data in " +:+ filename t dirname "test");
        Text ("Shape: " +:+ st)]
    ++ ((fun smp : sample => Example smp.1 smp.2) <$> shown2.1)
    ++ [Text "Done."].
Proof.
  cbn zeta. unfold finished, split_result, seeded.
  cbn [w_rng w_files w_stdout].
  change (Z.to_nat nInstances) with 1000%nat.
  split; [reflexivity|]. split; [|split].
  - rewrite lookup_insert_ne; [apply lookup_insert_eq|].
    intros E. apply filename_command_inj in E. discriminate E.
  - apply lookup_insert_eq.
  - rewrite <- !app_assoc. reflexivity.
Qed.

(** C1, amended: the random source is seeded once, before the loop over
    the splits, and the stream goes on from one split to the next: after
    one sample that is only shown as the example, the train file holds the
    next 1000 samples under its header; after one more shown sample the
    test file holds the 1000 samples that follow.  The test file continues
    the stream; it does not repeat the train file. *)
Theorem splits_are_consecutive_segments (t : task) (st dirname : string) (w : world) :
  supported t st = true ->
  let w' := (main dirname (task_args t st) w).2 in
  let shown1 := pulls t st 1 (random_seed 1337) in
  let train := pulls t st 1000 shown1.2 in
  let shown2 := pulls t st 1 train.2 in
  let test := pulls t st 1000 shown2.2 in
  w_files w' !! filename t dirname "train" = Some (header t :: rows 0 train.1) /\
  w_files w' !! filename t dirname "test" = Some (header t :: rows 0 test.1) /\
  length train.1 = 1000%nat /\ length test.1 = 1000%nat.
Proof.
  intros Hs. cbn zeta. rewrite main_supported by assumption. cbn [snd].
  destruct (final_files t dirname st w) as (_ & H1 & H2 & _).
  split; [exact H1|]. split; [exact H2|].
  split; apply pulls_length, Hs.
Qed.

Lemma pulls_one t st s :
  supported t st = true -> exists smp, (pulls t st 1 s).1 = [smp].
Proof.
  intros Hs. cbn [pulls]. destruct (pull_supported t st s Hs) as [smp ->].
  exists smp. reflexivity.
Qed.

(** C2, amended: for each split the script pulls 1001 samples: the first
    is printed on the standard output as the example and is not written;
    the following 1000 are written, in order, under the one header line.
    A run draws 2002 samples in all. *)
Theorem split_draws_1001_samples (t : task) (st dirname : string) (w : world) :
  supported t st = true ->
  let w' := (main dirname (task_args t st) w).2 in
  let stream := pulls t st 2002 (random_seed 1337) in
  exists (e1 e2 : sample) (train test : list sample),
    stream.1 = [e1] ++ train ++ [e2] ++ test /\
    length train = 1000%nat /\ length test = 1000%nat /\
    w_rng w' = stream.2 /\
    w_files w' !! filename t dirname "train" = Some (header t :: rows 0 train) /\
    w_files w' !! filename t dirname "test" = Some (header t :: rows 0 test) /\
    w_stdout w'
    = w_stdout w
      ++ [Text ("Creating data in " +:+ filename t dirname "train");
          Text ("Shape: " +:+ st); Example e1.1 e1.2;
          Text ("Creating data in " +:+ filename t dirname "test");
          Text ("Shape: " +:+ st); Example e2.1 e2.2;
          Text "Done."].
Proof.
  intros Hs. cbn zeta. rewrite main_supported by assumption. cbn [snd].
  change 2002%nat with (1 + (1000 + (1 + 1000)))%nat.
  rewrite !pulls_add by assumption. cbn [fst snd].
  destruct (final_files t dirname st w) as (Hr & H1 & H2 & Ho).
  set (shown1 := pulls t st 1 (random_seed 1337)) in *.
  set (train := pulls t st 1000 shown1.2) in *.
  set (shown2 := pulls t st 1 train.2) in *.
  set (test := pulls t st 1000 shown2.2) in *.
  destruct (pulls_one t st (random_seed 1337) Hs) as [e1 He1]. fold shown1 in He1.
  destruct (pulls_one t st train.2 Hs) as [e2 He2]. fold shown2 in He2.
  exists e1, e2, train.1, test.1.
  rewrite He1, He2.
  split; [reflexivity|].
  split; [apply pulls_length, Hs|]. split; [apply pulls_length, Hs|].
  split; [exact Hr|]. split; [exact H1|]. split; [exact H2|].
  rewrite Ho, He1, He2. reflexivity.
Qed.

(** C3: two runs for the same task and strategy, started in any two
    states of the random source, of the files and of the standard output,
    end in the same way, leave the same random source, write the same
    train file and the same test file, and print the same lines. *)
Theorem runs_are_reproducible (t : task) (st dirname : string) (w1 w2 : world) :
  supported t st = true ->
  let r1 := main dirname (task_args t st) w1 in
  let r2 := main dirname (task_args t st) w2 in
  r1.1 = r2.1 /\
  w_rng r1.2 = w_rng r2.2 /\
  (exists content,
      w_files r1.2 !! filename t dirname "train" = Some content /\
      w_files r2.2 !! filename t dirname "train" = Some content) /\
  (exists content,
      w_files r1.2 !! filename t dirname "test" = Some content /\
      w_files r2.2 !! filename t dirname "test" = Some content) /\
  (exists printed,
      w_stdout r1.2 = w_stdout w1 ++ printed /\
      w_stdout r2.2 = w_stdout w2 ++ printed).
Proof.
  intros Hs. cbn zeta. rewrite !main_supported by assumption. cbn [fst snd].
  destruct (final_files t dirname st w1) as (Hr1 & Ha1 & Hb1 & Ho1).
  destruct (final_files t dirname st w2) as (Hr2 & Ha2 & Hb2 & Ho2).
  split; [reflexivity|]. split; [congruence|].
  split; [eexists; split; [exact Ha1|exact Ha2]|].
  split; [eexists; split; [exact Hb1|exact Hb2]|].
  eexists. split; [exact Ho1|exact Ho2].
Qed.

(** C4: for a strategy outside the supported ones, a pull raises
    [NotImplementedError] and leaves the random source as it was; the run
    ends with that exception after the first two lines of output, with no
    file created or changed; and a generator that is not closed raises
    nothing else: its pull yields when the strategy is supported and
    raises [NotImplementedError] when it is not. *)
Theorem unsupported_strategy_aborts (t : task) (st dirname : string) (w : world) (s : rng) :
  supported t st = false ->
  pull t st s = (inl (NotImplementedError (message t)), s) /\
  (let r := main dirname (task_args t st) w in
   r.1 = inl (NotImplementedError (message t)) /\
   w_files r.2 = w_files w /\
   w_stdout r.2
   = w_stdout w ++ [Text ("Creating data in " +:+ filename t dirname "train");
                    Text ("Shape: " +:+ st)]) /\
  (forall g s',
      status_of g <> GEN_CLOSED ->
      match (next g s').1.1 with
      | inr _ => supported (task_of g) (strategy_of g) = true
      | inl e => e = NotImplementedError (message (task_of g)) /\
                 supported (task_of g) (strategy_of g) = false
      end).
Proof.
  intros Hs. split; [apply pull_unsupported, Hs|]. split.
  - cbn zeta. rewrite main_unsupported by assumption. cbn [fst snd w_files w_stdout].
    repeat split.
  - intros g s' Hg. assert (E := next_as_pull g s' Hg).
    destruct (supported (task_of g) (strategy_of g)) eqn:Hsg.
    + destruct (pull_supported _ _ s' Hsg) as [smp Hp]. rewrite Hp in E.
      injection E as E _. rewrite E. reflexivity.
    + rewrite pull_unsupported in E by assumption.
      injection E as E _. rewrite E. split; reflexivity.
Qed.

End ScriptClaims.

(** ** The script on CPython's generator *)

Section CPython.

#[local] Existing Instance cpython.
#[local] Existing Instance pow_nearest.

(** A world before the run: a random source in some state, no files,
    nothing printed. *)
Definition blank : @world cpython :=
  @Build_world cpython (PyRandom.seed 0) ∅ [].

(** Row 0 of a file that holds the samples [l] under its header. *)
Definition first_row (l : list sample) : option line := rows 0 l !! 0%nat.

Lemma first_row_pulls t st n (s : @rng cpython) :
  first_row (@pulls cpython pow_nearest t st (S n) s).1 = first_row (@pulls cpython pow_nearest t st 1 s).1.
Proof.
  cbn [pulls]. destruct (pull t st s) as [[e|smp] s']; [reflexivity|].
  destruct (pulls t st n s') as [l s'']. destruct smp. reflexivity.
Qed.

Lemma second_line (h : line) (l : list sample) :
  Some (h :: rows 0 l) ≫= (.!! 1%nat) = first_row l.
Proof. reflexivity. Qed.

(** The seeded stream of [bernoulli], looked at where the script reaches
    it: the sample shown as the first example, the first sample written to
    the train file, the first sample written to the test file; up to
    there [_randbelow] was never cut. *)
Lemma bernoulli_stream_observed :
  let shown1 := @pulls cpython pow_nearest Classification "bernoulli" 1 (random_seed 1337) in
  let train := @pulls cpython pow_nearest Classification "bernoulli" 1000 shown1.2 in
  let shown2 := @pulls cpython pow_nearest Classification "bernoulli" 1 train.2 in
  let test1 := @pulls cpython pow_nearest Classification "bernoulli" 1 shown2.2 in
  first_row shown1.1 = Some (Row 0 [Int 1; Int 0; Int 1; Int 1; Int 1] (Int 1)) /\
  first_row (@pulls cpython pow_nearest Classification "bernoulli" 1 shown1.2).1
  = Some (Row 0 [Int 1; Int 1; Int 0; Int 1; Int 0] (Int 1)) /\
  first_row test1.1 = Some (Row 0 [Int 0; Int 0; Int 0; Int 0; Int 0] (Int 0)) /\
  PyRandom.cut (test1.2 : PyRandom.t) = false.
Proof. vm_compute. repeat split. Qed.

(** C1, as stated, fails: after [--clf bernoulli] the two files differ
    already in row 0, [1 1 0 1 0 1] in the train file and [0 0 0 0 0 0] in
    the test file. *)
Lemma train_and_test_files_differ :
  let w' := (@main cpython pow_nearest "bin" (task_args Classification "bernoulli") blank).2 in
  w_files w' !! filename Classification "bin" "train"
  <> w_files w' !! filename Classification "bin" "test".
Proof.
  destruct bernoulli_stream_observed as (_ & Htrain & Htest & _).
  intros w'. subst w'. rewrite main_supported by reflexivity. cbn [snd].
  destruct (final_files Classification "bin" "bernoulli" blank) as (_ & -> & -> & _).
  intros E. apply (f_equal (fun o => o ≫= (.!! 1%nat))) in E.
  rewrite !second_line, !(first_row_pulls _ _ 999), Htrain, Htest in E.
  discriminate E.
Qed.

(** C2, as stated, fails: after [--clf bernoulli] row 0 of the train file
    is not the first sample of the seeded stream, [1 0 1 1 1 1], but the
    second one: the first was pulled for the example. *)
Lemma example_sample_is_drawn_too :
  let w' := (@main cpython pow_nearest "bin" (task_args Classification "bernoulli") blank).2 in
  let first := @pulls cpython pow_nearest Classification "bernoulli" 1000 (random_seed 1337) in
  w_files w' !! filename Classification "bin" "train"
  <> Some (header Classification :: rows 0 first.1).
Proof.
  destruct bernoulli_stream_observed as (Hshown & Htrain & _ & _).
  intros w' first. subst w' first. rewrite main_supported by reflexivity. cbn [snd].
  destruct (final_files Classification "bin" "bernoulli" blank) as (_ & -> & _ & _).
  intros E. apply (f_equal (fun o => o ≫= (.!! 1%nat))) in E.
  cbn [header] in E.
  rewrite !second_line, !(first_row_pulls _ _ 999), Htrain, Hshown in E.
  discriminate E.
Qed.

(** C5, as stated, fails: with the noise at 0, the first sample of
    [linear] after seeding has the feature 0.236 and the target -0.529,
    while [2 * 0.236 - 1] is -0.528. *)
Lemma linear_rounded_target_off :
  let s := @random_seed cpython 1337 in
  (@random_gauss cpython 0 (lit 0.3) (@random_random cpython s).2).1 = 0%Q /\
  (@pull cpython pow_nearest Regression "linear" s).1
  = inr ([Float (lit 0.236)], Float (lit (-0.529))) /\
  lit (-0.529) <> fsub (fmul 2 (lit 0.236)) 1 /\
  ~ (lit (-0.529) == 2 * lit 0.236 - 1)%Q.
Proof.
  cbn zeta. split; [vm_compute; reflexivity|]. split; [vm_compute; reflexivity|].
  split; vm_compute; intros H; discriminate H.
Qed.

(** The random source after [n] samples of [circle] is the same under
    every [pow]: the label does not feed back into the draws. *)
Lemma circle_pulls_state (P1 P2 : FloatPow) (n : nat) (s : @rng cpython) :
  (@pulls cpython P1 Classification "circle" n s).2
  = (@pulls cpython P2 Classification "circle" n s).2.
Proof.
  revert s. induction n as [|n IH]; intros s; [reflexivity|].
  cbn [pulls]. rewrite !pull_clf.
  destruct (@circle_iteration cpython P1 None s) as (l1 & -> & _).
  destruct (@circle_iteration cpython P2 None s) as (l2 & -> & _).
  specialize (IH (random_random (random_random s).2).2).
  destruct (@pulls cpython P1 _ _ n _) as [r1 s1].
  destruct (@pulls cpython P2 _ _ n _) as [r2 s2].
  exact IH.
Qed.

(** The point drawn for the 476th sample of [circle] after seeding: it
    rounds to (-0.4, -0.3) and lies well inside the circle. *)
Lemma circle_drawn_476 :
  let s := (@pulls cpython pow_nearest Classification "circle" 475 (random_seed 1337)).2 in
  let d0 := random_random s in
  let d1 := random_random d0.2 in
  let x0 := fsub (fmul 2 d0.1) 1 in
  let x1 := fsub (fmul 2 d1.1) 1 in
  round_float x0 2 = lit (-0.4) /\
  round_float x1 2 = lit (-0.3) /\
  Qle_bool (x0 * x0 + x1 * x1) ((1 # 4) * (1 - pow2 (-50))) = true.
Proof. vm_compute. repeat split. Qed.

(** Under every [pow] within the accuracy asked of it, that sample is the
    point (-0.4, -0.3) with label 1. *)
Lemma circle_sample_476 (P' : FloatPow) :
  let s := (@pulls cpython P' Classification "circle" 475 (random_seed 1337)).2 in
  (@pull cpython P' Classification "circle" s).1
  = inr ([Float (lit (-0.4)); Float (lit (-0.3))], Int 1).
Proof.
  intros s. subst s. rewrite (circle_pulls_state P' pow_nearest).
  destruct circle_drawn_476 as (H0 & H1 & Hin).
  rewrite pull_clf.
  destruct (@circle_iteration cpython P' None
              (@pulls cpython pow_nearest Classification "circle" 475
                 (random_seed 1337)).2) as (lab & E & _ & Hlab & _).
  rewrite E. cbn [fst x label]. rewrite H0, H1.
  rewrite Hlab; [reflexivity|]. apply Qle_bool_iff. exact Hin.
Qed.

(** C6, as stated, fails: with [circle], the 476th sample after seeding
    (row 474 of the train file) is the point (-0.4, -0.3) with label 1,
    and the distance of that point from the origin is not below 0.5.
    The sample is the same under every [pow] ([circle_sample_476]); the
    statement names one. *)
Lemma circle_rounded_point_on_boundary :
  let s := (@pulls cpython pow_nearest Classification "circle" 475 (random_seed 1337)).2 in
  (@pull cpython pow_nearest Classification "circle" s).1
  = inr ([Float (lit (-0.4)); Float (lit (-0.3))], Int 1) /\
  ~ (lit (-0.4) * lit (-0.4) + lit (-0.3) * lit (-0.3) < (1 # 2) * (1 # 2))%Q.
Proof.
  split; [apply circle_sample_476|]. vm_compute. intros H; discriminate H.
Qed.

End CPython.

(** ** The theorems at work on CPython's generator *)

Section Witnesses.

#[local] Existing Instance cpython.
#[local] Existing Instance pow_nearest.

Lemma labels_are_binary_witness :
  task_of (generate Classification "circle") = Classification /\
  supported Classification (strategy_of (generate Classification "circle")) = true /\
  status_of (generate Classification "circle") <> GEN_CLOSED /\
  yields (fun smp : sample => smp.2 = Int 0 \/ smp.2 = Int 1)
         (next (generate Classification "circle") (random_seed 1337)).1.1.
Proof.
  split; [reflexivity|]. split; [reflexivity|]. split; [discriminate|].
  apply labels_are_binary; [reflexivity|reflexivity|discriminate].
Defined.

Lemma features_are_bounded_and_rounded_witness :
  supported Classification "halfs" = true /\
  GEN_CREATED <> GEN_CLOSED /\
  yields (fun smp : sample =>
            Forall (fun v => between (-1) 1 v /\ rounded_to 2 v) smp.1 /\
            ("halfs" = "halfs" ->
             exists x0 x1, smp.1 = [x0; x1] /\
               (smp.2 = Int 0 -> between (-1) 0 x0) /\
               (smp.2 = Int 1 -> between 0 1 x0)))
         (next (generate Classification "halfs") (random_seed 1337)).1.1.
Proof.
  split; [reflexivity|]. split; [discriminate|].
  apply (features_are_bounded_and_rounded (generate Classification "halfs"));
    [reflexivity|discriminate].
Defined.

Lemma bernoulli_majority_witness :
  clf_strategy (generate_clf_point "bernoulli") = "bernoulli" /\
  clf_status (generate_clf_point "bernoulli") <> GEN_CLOSED /\
  yields (fun smp : sample =>
            exists bits : list Z,
              smp.1 = Int <$> bits /\ length bits = 5%nat /\
              Forall (fun b => b = 0 \/ b = 1) bits /\
              (smp.2 = Int 1 <-> 2 < sum bits) /\
              (smp.2 = Int 0 <-> sum bits <= 2))
         (next (Clf (generate_clf_point "bernoulli")) (random_seed 1337)).1.1.
Proof.
  split; [reflexivity|]. split; [discriminate|].
  apply bernoulli_majority; [reflexivity|discriminate].
Defined.

Lemma circle_label_of_drawn_point_witness :
  clf_strategy (generate_clf_point "circle") = "circle" /\
  clf_status (generate_clf_point "circle") <> GEN_CLOSED /\
  let g := generate_clf_point "circle" in
  let s := random_seed 1337 in
  let d0 := random_random s in
  let d1 := random_random d0.2 in
  let x0 := fsub (fmul 2 d0.1) 1 in
  let x1 := fsub (fmul 2 d1.1) 1 in
  exists lab : Z,
    ((next (Clf g) s).1.1, (next (Clf g) s).2)
    = (inr ([Float (round_float x0 2); Float (round_float x1 2)], Int lab), d1.2) /\
    (lab = 0 \/ lab = 1) /\
    ((x0 * x0 + x1 * x1 <= (1 # 4) * (1 - pow2 (-50)))%Q -> lab = 1) /\
    (((1 # 4) * (1 + pow2 (-50)) <= x0 * x0 + x1 * x1)%Q -> lab = 0).
Proof.
  split; [reflexivity|]. split; [discriminate|].
  apply circle_label_of_drawn_point; [reflexivity|discriminate].
Defined.

Lemma linear_target_of_drawn_point_witness :
  reg_strategy (generate_reg_point "linear") = "linear" /\
  reg_status (generate_reg_point "linear") <> GEN_CLOSED /\
  (random_gauss 0 (lit 0.3) (random_random (random_seed 1337)).2).1 = 0%Q /\
  exists x y : float,
    (x == 2 * (random_random (random_seed 1337)).1 - 1)%Q /\
    (y == 2 * x - 1)%Q /\
    (next (Reg (generate_reg_point "linear")) (random_seed 1337)).1.1
    = inr ([Float (round_float x 3)], Float (round_float y 3)).
Proof.
  split; [reflexivity|]. split; [discriminate|].
  assert (H : (random_gauss 0 (lit 0.3) (random_random (random_seed 1337)).2).1 = 0%Q)
    by (vm_compute; reflexivity).
  split; [exact H|].
  apply linear_target_of_drawn_point; [reflexivity|discriminate|exact H].
Defined.

Lemma new_generator_per_pull_witness :
  supported Regression "cubic" = true /\
  (forall g, task_of g = Regression -> strategy_of g = "cubic" ->
             status_of g <> GEN_CLOSED ->
             ((next g (random_seed 1337)).1.1, (next g (random_seed 1337)).2)
             = pull Regression "cubic" (random_seed 1337)) /\
  resume 3 (generate Regression "cubic") (random_seed 1337)
  = pulls Regression "cubic" 3 (random_seed 1337) /\
  length (pulls Regression "cubic" 3 (random_seed 1337)).1 = 3%nat.
Proof.
  split; [reflexivity|]. apply new_generator_per_pull. reflexivity.
Defined.

Lemma splits_are_consecutive_segments_witness :
  supported Classification "quarters" = true /\
  let w' := (main "bin" (task_args Classification "quarters") blank).2 in
  let shown1 := pulls Classification "quarters" 1 (random_seed 1337) in
  let train := pulls Classification "quarters" 1000 shown1.2 in
  let shown2 := pulls Classification "quarters" 1 train.2 in
  let test := pulls Classification "quarters" 1000 shown2.2 in
  w_files w' !! filename Classification "bin" "train"
  = Some (header Classification :: rows 0 train.1) /\
  w_files w' !! filename Classification "bin" "test"
  = Some (header Classification :: rows 0 test.1) /\
  length train.1 = 1000%nat /\ length test.1 = 1000%nat.
Proof.
  split; [reflexivity|].
  apply (splits_are_consecutive_segments Classification "quarters" "bin" blank).
  reflexivity.
Defined.

Lemma split_draws_1001_samples_witness :
  supported Regression "quadratic" = true /\
  let w' := (main "bin" (task_args Regression "quadratic") blank).2 in
  let stream := pulls Regression "quadratic" 2002 (random_seed 1337) in
  exists (e1 e2 : sample) (train test : list sample),
    stream.1 = [e1] ++ train ++ [e2] ++ test /\
    length train = 1000%nat /\ length test = 1000%nat /\
    w_rng w' = stream.2 /\
    w_files w' !! filename Regression "bin" "train"
    = Some (header Regression :: rows 0 train) /\
    w_files w' !! filename Regression "bin" "test"
    = Some (header Regression :: rows 0 test) /\
    w_stdout w'
    = w_stdout blank
      ++ [Text ("Creating data in " +:+ filename Regression "bin" "train");
          Text ("Shape: " +:+ "quadratic"); Example e1.1 e1.2;
          Text ("Creating data in " +:+ filename Regression "bin" "test");
          Text ("Shape: " +:+ "quadratic"); Example e2.1 e2.2;
          Text "Done."].
Proof.
  split; [reflexivity|].
  apply (split_draws_1001_samples Regression "quadratic" "bin" blank).
  reflexivity.
Defined.

(** A second world before the run: another state of the random source, a
    stale train file, and a line on the standard output. *)
Definition cluttered : world :=
  Build_world (PyRandom.seed 42)
              {[ filename Classification "bin" "train" := [Text "stale"] ]}
              [Text "earlier output"].

Lemma runs_are_reproducible_witness :
  supported Classification "diagonal" = true /\
  let r1 := main "bin" (task_args Classification "diagonal") blank in
  let r2 := main "bin" (task_args Classification "diagonal") cluttered in
  r1.1 = r2.1 /\
  w_rng r1.2 = w_rng r2.2 /\
  (exists content,
      w_files r1.2 !! filename Classification "bin" "train" = Some content /\
      w_files r2.2 !! filename Classification "bin" "train" = Some content) /\
  (exists content,
      w_files r1.2 !! filename Classification "bin" "test" = Some content /\
      w_files r2.2 !! filename Classification "bin" "test" = Some content) /\
  (exists printed,
      w_stdout r1.2 = w_stdout blank ++ printed /\
      w_stdout r2.2 = w_stdout cluttered ++ printed).
Proof.
  split; [reflexivity|].
  apply (runs_are_reproducible Classification "diagonal" "bin" blank cluttered).
  reflexivity.
Defined.

Lemma unsupported_strategy_aborts_witness :
  supported Classification "spiral" = false /\
  pull Classification "spiral" (random_seed 1337)
  = (inl (NotImplementedError (message Classification)), random_seed 1337) /\
  (let r := main "bin" (task_args Classification "spiral") blank in
   r.1 = inl (NotImplementedError (message Classification)) /\
   w_files r.2 = w_files blank /\
   w_stdout r.2
   = w_stdout blank
     ++ [Text ("Creating data in " +:+ filename Classification "bin" "train");
         Text ("Shape: " +:+ "spiral")]) /\
  (forall g s',
      status_of g <> GEN_CLOSED ->
      match (next g s').1.1 with
      | inr _ => supported (task_of g) (strategy_of g) = true
      | inl e => e = NotImplementedError (message (task_of g)) /\
                 supported (task_of g) (strategy_of g) = false
      end).
Proof.
  split; [reflexivity|].
  apply (unsupported_strategy_aborts Classification "spiral" "bin" blank).
  reflexivity.
Defined.

End Witnesses.


(** ** The label rules on the drawn point

    The six strategies that draw a point of the square draw it in the same
    way: two calls of [random()], each mapped to [2r - 1]. *)



Section DrawnPoint.

Context {R : RandomSource} {P : FloatPow}.
Local Open Scope Q_scope.




Lemma dyadic52_value k : dyadic k (-52) == inject_Z k * (1 # 4503599627370496).
Proof. rewrite dyadic_eq, pow2_m52. reflexivity. Qed.













End DrawnPoint.



Section SampleShape.

Context {R : RandomSource} {P : FloatPow}.



End SampleShape.

(** ** More on the script: both tasks, other files, a failed task *)

Section ScriptExtras.

Context {R : RandomSource} {P : FloatPow}.




























End ScriptExtras.

Section Halfs.

Context {R : RandomSource} {P : FloatPow}.
Local Open Scope Q_scope.


End Halfs.

(** * The older script, [src/test/resources/create_data.py]

    It takes the splits as positional arguments and two flags, draws the
    classification label first and then a point on the label's side of
    the diagonal, and writes the regression data as a fixed grid. *)

Module Legacy.

(** What [parser.parse_args()] returns: the positional [command] list,
    whose items [argparse] takes from [choices], and the two flags. *)
Record args := {
  command : list string;
  clf : bool;
  reg : bool
}.


Definition TARGET_DIR (dirname : string) : string := dirname.

(** [sign = functools.partial(math.copysign, 1)], on the numbers of this
    model, which have one zero. *)
Definition sign (x : float) : float := if fltb x 0 then fneg 1 else 1%Q.

(** [a / b] on two [int]s, for [b] other than 0: the nearest float. *)
Definition int_truediv (a b : Z) : float := RN (inject_Z a / inject_Z b).

Section Script.

Context {R : RandomSource} {P : FloatPow}.

(** The body of the classification loop between the draw of the label
    and the [print]. *)
Definition clf_point (strategy : string) (label : Z)
  : SE rng (value * value * Z) :=
  let x := Int 0 in
  let y := Int 0 in
  '(x, y, label) ←
    (if String.eqb strategy "halfs" then
       x ← (if label =? 0 then r ← random; mret (fneg r) else random);
       y ← coordinate;
       mret (Float x, Float y, label)
     else if String.eqb strategy "quarters" then
       x ← coordinate;
       r ← random;
       mret (Float x,
             Float (fmul (fmul (Z2F (if label =? 1 then 1 else -1)) (sign x)) r),
             label)
     else if String.eqb strategy "diagonal" then
       x ← coordinate;
       y ← (if label =? 1 then
              r ← random; mret (fadd x (fmul r (fsub 1 x)))
            else
              r ← random; mret (fsub (fmul r (fadd 1 x)) 1));
       mret (Float x, Float y, label)
     else if String.eqb strategy "circle" then
       x ← coordinate;
       y ← coordinate;
       d ← math_sqrt (fadd (fpow x 2) (fpow y 2));
       mret (Float x, Float y, if fltb d (lit 0.5) then 1 else 0)
     else
       mret (x, y, label));
  mret (py_round 2 x, py_round 2 y, label).

(** The body of the regression loop before the [print]. *)
Definition reg_point (strategy : string) (nInstances i : Z) : value * value :=
  let x := fadd (Z2F (-1)) (int_truediv (i * 2) (nInstances - 1)) in
  let y := Int 0 in
  let y := if String.eqb strategy "linear" then Float (fadd (fmul 2 x) 1) else y in
  (py_round 3 (Float x), py_round 3 y).

(** A command on the module-level random generator, run by the script. *)
Definition lift {A} (c : SE rng A) : SE world A := fun w =>
  let '(r, s) := c (w_rng w) in
  (r, {| w_rng := s; w_files := w_files w; w_stdout := w_stdout w |}).

Definition clf_row (filename : string) (i : Z) : SE world unit :=
  label ← lift (randint 0 1);
  let strategy := "diagonal" in
  '(x, y, label) ← lift (clf_point strategy label);
  print_to filename (Row i [x; y] (Int label)).

Definition reg_row (nInstances : Z) (filename : string) (i : Z) : SE world unit :=
  let strategy := "linear" in
  let '(x, y) := reg_point strategy nInstances i in
  print_to filename (Row i [x] y).

Definition filename (dirname command suff : string) : string :=
  os_path_join (TARGET_DIR dirname) (command +:+ "_" +:+ suff +:+ ".csv").

(** The body of [for suff in suffixList]. *)
Definition block (dirname command suff : string) : SE world unit :=
  let nInstances :=
    if String.eqb command "train" then 1000
    else if String.eqb command "test" then 1000
    else 1000 in
  let filename := filename dirname command suff in
  print (Text ("Creating data in " +:+ filename));;
  open_w filename;;
  if String.eqb suff "clf" then
    print_to filename (Text "Index X Y Type");;
    for_each (range nInstances) (clf_row filename)
  else if String.eqb suff "reg" then
    print_to filename (Text "Index X Y");;
    for_each (range nInstances) (reg_row nInstances filename)
  else
    mret ().

Definition suffixList (a : args) : list string :=
  let suffixList := ["clf"; "reg"] in
  let suffixList := if clf a then ["clf"] else suffixList in
  if reg a then ["reg"] else suffixList.

(** The module body after argument parsing. *)
Definition main (dirname : string) (a : args) : SE world unit :=
  seed 1337;;
  for_each (command a) (fun command =>
    for_each (suffixList a) (fun suff =>
      block dirname command suff)).

End Script.



Definition header (suff : string) : line :=
  if String.eqb suff "clf" then Text "Index X Y Type" else Text "Index X Y".




End Legacy.

Section LegacyPoint.

Context {R : RandomSource} {P : FloatPow}.
Local Open Scope Q_scope.







End LegacyPoint.

Section LegacyFacts.

Context {R : RandomSource} {P : FloatPow}.







End LegacyFacts.

Section LegacyRun.

Context {R : RandomSource} {P : FloatPow}.











End LegacyRun.

Section LegacyTheorems.

Context {R : RandomSource} {P : FloatPow}.









End LegacyTheorems.

Section LegacyGrid.

Local Open Scope Q_scope.




End LegacyGrid.

(** ** The further theorems at work *)

Section MoreWitnesses.

#[local] Existing Instance cpython.
#[local] Existing Instance pow_nearest.
















End MoreWitnesses.
